(** * SCT_DS_1: loading, selecting, binning and summarising a CSV dataset

    A shallow embedding of [SCT_DS_1.py].  The script opens a ZIP archive,
    reads every CSV entry into a pandas DataFrame, picks one of them, and
    renders a histogram and a bar chart of one column while printing
    summary statistics.

    Conventions of the embedding.
    - Text (entry names, entry contents, cells) is a [string]; an entry's
      bytes and its decoded text are both sequences of 8-bit characters.
    - A Python [dict] is an association list in insertion order
      ([Dict]); assigning to an existing key keeps the key's position.
    - A numeric cell is a rational number ([Q]); a missing cell (NaN) is
      [None].  Every finite binary64 value is a rational, and comparisons
      against the bin edges are exact, so binning is modelled exactly.
      The reductions [mean], [median] and [std] compute in binary64:
      every operation rounds its exact result to the nearest binary64
      value.
    - Code that raises is modelled in the monad [M]: a computation takes
      the console/display trace so far and returns the extended trace with
      either a value or the exception raised.
    - [print] and [plt.show] become events of the trace that carry the
      data being printed or plotted, not the formatted text. *)

From Stdlib Require Import Bool List Arith Lia ZArith QArith Lqa.
From Stdlib Require Import Qround Qabs Qpower.
From Stdlib Require Floats.
From Stdlib Require Import Ascii String.
From Stdlib Require Import Sorting.Permutation Sorting.Sorted.
Import ListNotations.

Open Scope string_scope.
Open Scope list_scope.

(** ** Strings: the [str] methods and [os.path] function the script calls *)

Module Str.

Definition LF : ascii := "010"%char.
Definition CR : ascii := "013"%char.
Definition TAB : ascii := "009"%char.

(** [c.lower()] on one character: 'A'..'Z' become 'a'..'z'. *)
Definition lower_char (c : ascii) : ascii :=
  let n := nat_of_ascii c in
  if (65 <=? n)%nat && (n <=? 90)%nat then ascii_of_nat (n + 32) else c.

(** [s.lower()] *)
Fixpoint lower (s : string) : string :=
  match s with
  | EmptyString => EmptyString
  | String c s' => String (lower_char c) (lower s')
  end.

(** [s.startswith(p)] *)
Fixpoint startswith (p s : string) : bool :=
  match p, s with
  | EmptyString, _ => true
  | String _ _, EmptyString => false
  | String a p', String b s' => Ascii.eqb a b && startswith p' s'
  end.

(** [s.endswith(suf)]: some tail of [s] is [suf]. *)
Fixpoint endswith (suf s : string) : bool :=
  String.eqb s suf ||
  match s with
  | EmptyString => false
  | String _ s' => endswith suf s'
  end.

(** [sub in s] *)
Fixpoint contains (sub s : string) : bool :=
  startswith sub s ||
  match s with
  | EmptyString => false
  | String _ s' => contains sub s'
  end.

(** [os.path.basename(p)] by the POSIX rule: the text after the last
    '/'.  [zipfile] gives member names with '/' as their only separator. *)
Fixpoint basename_from (cur rest : string) : string :=
  match rest with
  | EmptyString => cur
  | String c r =>
      if Ascii.eqb c "/"%char then basename_from r r else basename_from cur r
  end.

Definition basename (p : string) : string := basename_from p p.

(** Python truthiness of a [str]. *)
Definition truthy (s : string) : bool :=
  match s with EmptyString => false | String _ _ => true end.

End Str.

(** ** Exceptions and the trace monad *)

Inductive exn : Type :=
| IndexError        (* list index out of range; a bar plot without bars *)
| KeyError          (* a name that is not in a dict or in the archive *)
| TypeError         (* pd.cut comparing text with the bin edges *)
| ParserError       (* pandas.errors.ParserError *)
| EmptyDataError.   (* pandas.errors.EmptyDataError *)

Inductive result (A : Type) : Type :=
| Ok (a : A)
| Raise (e : exn).
Arguments Ok {A} a.
Arguments Raise {A} e.

Definition rbind {A B} (r : result A) (k : A -> result B) : result B :=
  match r with
  | Ok a => k a
  | Raise e => Raise e
  end.

(** ** Python dictionaries, in insertion order *)

Module Dict.

Definition t (V : Type) : Type := list (string * V).

(** [d[k] = v] *)
Fixpoint set {V} (k : string) (v : V) (d : t V) : t V :=
  match d with
  | [] => [(k, v)]
  | (k', v') :: d' =>
      if String.eqb k' k then (k', v) :: d' else (k', v') :: set k v d'
  end.

(** [d.get(k)] *)
Fixpoint get {V} (k : string) (d : t V) : option V :=
  match d with
  | [] => None
  | (k', v') :: d' => if String.eqb k' k then Some v' else get k d'
  end.

Definition keys {V} (d : t V) : list string := map fst d.
Definition values {V} (d : t V) : list V := map snd d.

End Dict.

(** ** The fragment of pandas the script relies on *)

Module Pandas.

(** A column: numeric dtype (int64/float64, [None] is NaN) or object
    dtype (text, [None] is a missing value).  The other dtypes of
    pandas, the boolean one among them, are not modelled. *)
Inductive Series : Type :=
| NumSeries (xs : list (option Q))
| ObjSeries (xs : list (option string)).

(** A DataFrame: its columns, in order, each with its name. *)
Definition DataFrame : Type := list (string * Series).

Definition columns (df : DataFrame) : list string := map fst df.

(** [col in df.columns] *)
Definition has_column (col : string) (df : DataFrame) : bool :=
  existsb (String.eqb col) (columns df).

(** [df[col]] for a column that exists. *)
Definition column (col : string) (df : DataFrame) : option Series :=
  Dict.get col df.

(** [pd.api.types.is_numeric_dtype(s)] *)
Definition is_numeric_dtype (s : Series) : bool :=
  match s with NumSeries _ => true | ObjSeries _ => false end.

(** [s.dropna()] on the values of a series. *)
Fixpoint dropna {A} (xs : list (option A)) : list A :=
  match xs with
  | [] => []
  | Some x :: xs' => x :: dropna xs'
  | None :: xs' => dropna xs'
  end.

(** *** Reading CSV text

    [read_csv] is modelled on the fragment the dataset family exercises:
    comma-separated fields without quoting, lines ended by LF, CR or
    CRLF, header names taken as they stand (pandas renames empty and
    repeated header names), integer literals of any length as the only
    numeric spelling (pandas also reads decimal numbers and truth
    values, and has no numeric dtype for integers beyond 64 bits), every
    byte sequence taken as decodable, and a row with more fields than
    the header taken as a tokenizing error (pandas reads the first field
    as an index when every row has one field more).  The statements
    about texts are made for lines ended by LF or CRLF. *)

(** The UTF-8 byte-order mark, [EF BB BF]. *)
Definition BOM : string :=
  String (ascii_of_nat 239) (String (ascii_of_nat 187)
    (String (ascii_of_nat 191) EmptyString)).

(** [encoding='utf-8-sig']: one leading byte-order mark is dropped. *)
Definition decode_utf8_sig (bytes : string) : string :=
  match bytes with
  | String a (String b (String c rest)) =>
      if Ascii.eqb a (ascii_of_nat 239) && Ascii.eqb b (ascii_of_nat 187)
         && Ascii.eqb c (ascii_of_nat 191)
      then rest else bytes
  | _ => bytes
  end.

(** Put a character in front of the first line of a list of lines. *)
Definition cons_char (c : ascii) (ls : list string) : list string :=
  match ls with
  | [] => [String c EmptyString]
  | l :: ls' => String c l :: ls'
  end.

(** The physical lines of a text.  [after_cr] records that the previous
    character was a CR, so that a following LF belongs to the same line
    end. *)
Fixpoint lines_from (after_cr : bool) (s : string) : list string :=
  match s with
  | EmptyString => []
  | String c s' =>
      if Ascii.eqb c Str.LF then
        if after_cr then lines_from false s'
        else EmptyString :: lines_from false s'
      else if Ascii.eqb c Str.CR then EmptyString :: lines_from true s'
      else cons_char c (lines_from false s')
  end.

Definition lines (s : string) : list string := lines_from false s.

(** The comma-separated fields of one line. *)
Fixpoint fields (s : string) : list string :=
  match s with
  | EmptyString => [EmptyString]
  | String c s' =>
      if Ascii.eqb c ","%char then EmptyString :: fields s'
      else cons_char c (fields s')
  end.

(** A line of only spaces and tabs counts as blank
    ([skip_blank_lines=True]). *)
Fixpoint blank (s : string) : bool :=
  match s with
  | EmptyString => true
  | String c s' =>
      (Ascii.eqb c " "%char || Ascii.eqb c Str.TAB) && blank s'
  end.

(** pandas' default [na_values]. *)
Definition na_values : list string :=
  [EmptyString; "#N/A"; "#N/A N/A"; "#NA"; "-1.#IND"; "-1.#QNAN"; "-NaN"; "-nan";
   "1.#IND"; "1.#QNAN"; "<NA>"; "N/A"; "NA"; "NULL"; "NaN"; "None";
   "n/a"; "nan"; "null"].

Definition is_na (cell : string) : bool :=
  existsb (String.eqb cell) na_values.

Definition digit_of (c : ascii) : option Z :=
  let n := nat_of_ascii c in
  if (48 <=? n)%nat && (n <=? 57)%nat then Some (Z.of_nat (n - 48))
  else None.

Fixpoint parse_digits (acc : Z) (s : string) : option Z :=
  match s with
  | EmptyString => Some acc
  | String c s' =>
      match digit_of c with
      | Some d => parse_digits (10 * acc + d)%Z s'
      | None => None
      end
  end.

(** An integer literal: an optional '-' and at least one digit. *)
Definition parse_int (s : string) : option Z :=
  match s with
  | EmptyString => None
  | String c s' =>
      if Ascii.eqb c "-"%char then
        match s' with
        | EmptyString => None
        | _ => option_map Z.opp (parse_digits 0 s')
        end
      else parse_digits 0 s
  end.

(** A cell of a numeric column: missing, or the number it spells. *)
Definition num_cell (cell : string) : option (option Q) :=
  if is_na cell then Some None
  else option_map (fun z => Some (inject_Z z)) (parse_int cell).

(** All cells as numbers, or [None] when some cell is not numeric. *)
Fixpoint num_cells (cells : list string) : option (list (option Q)) :=
  match cells with
  | [] => Some []
  | c :: cs =>
      match num_cell c, num_cells cs with
      | Some x, Some xs => Some (x :: xs)
      | _, _ => None
      end
  end.

Definition obj_cell (cell : string) : option string :=
  if is_na cell then None else Some cell.

(** dtype inference for one column; a column without rows is object. *)
Definition infer_column (cells : list string) : Series :=
  match cells with
  | [] => ObjSeries []
  | _ =>
      match num_cells cells with
      | Some xs => NumSeries xs
      | None => ObjSeries (map obj_cell cells)
      end
  end.

(** The fields of every data row; a row with more fields than the
    header is a tokenizing error. *)
Fixpoint tokenize_rows (width : nat) (rows : list string)
  : result (list (list string)) :=
  match rows with
  | [] => Ok []
  | r :: rs =>
      let fs := fields r in
      if (width <? List.length fs)%nat then Raise ParserError
      else rbind (tokenize_rows width rs) (fun rest => Ok (fs :: rest))
  end.

(** Column [i] of the tokenized rows; short rows are padded with
    missing cells. *)
Definition column_cells (i : nat) (rows : list (list string))
  : list string :=
  map (fun r => nth i r EmptyString) rows.

Definition make_table (header : string) (rows : list (list string))
  : DataFrame :=
  let names := fields header in
  map (fun ni => (snd ni, infer_column (column_cells (fst ni) rows)))
      (combine (seq 0 (List.length names)) names).

(** [pd.read_csv] on decoded text: [skiprows] physical lines are
    dropped, blank lines are ignored, the first line left is the
    header. *)
Definition read_csv_text (skiprows : nat) (text : string)
  : result DataFrame :=
  match filter (fun l => negb (blank l)) (skipn skiprows (lines text)) with
  | [] => Raise EmptyDataError
  | header :: rows =>
      rbind (tokenize_rows (List.length (fields header)) rows)
            (fun rs => Ok (make_table header rs))
  end.

(** [pd.read_csv(f, skiprows=n, encoding='utf-8-sig')] *)
Definition read_csv (skiprows : nat) (bytes : string) : result DataFrame :=
  read_csv_text skiprows (decode_utf8_sig bytes).

(** *** Binary64 arithmetic

    A [float64] value is a rational [m * 2^c] with [|m| < 2^53] and
    [c >= -1074].  An operation computes the exact result and rounds it
    to the nearest such value, ties to the even [m]; a result beyond the
    largest finite value is an overflow, [None]. *)

Definition pow2 (e : Z) : Q := Qpower 2 e.

(** [floor (log2 |q|)] for [q <> 0] *)
Definition ilog2 (q : Q) : Z :=
  let k := (Z.log2 (Z.abs (Qnum q)) - Z.log2 (Zpos (Qden q)))%Z in
  if Qle_bool (pow2 k) (Qabs q) then k else (k - 1)%Z.

(** The nearest integer, ties to even. *)
Definition rne (q : Q) : Z :=
  let f := Qfloor q in
  match Qcompare (q - inject_Z f) (1 # 2) with
  | Lt => f
  | Gt => (f + 1)%Z
  | Eq => if Z.even f then f else (f + 1)%Z
  end.

(** The exponent of the last place of [q]: 53 significant bits, and no
    exponent below that of the subnormal numbers. *)
Definition cexp (q : Q) : Z := Z.max (ilog2 q - 52) (-1074).

Definition round64 (q : Q) : Q :=
  let c := cexp q in Qred (inject_Z (rne (q * pow2 (- c))) * pow2 c).

(** [sys.float_info.max] *)
Definition max_float : Q := inject_Z ((2 ^ 53 - 1) * 2 ^ 971).

Definition finite (q : Q) : option Q :=
  if Qle_bool (Qabs q) max_float then Some q else None.

Definition obind {A B : Type} (o : option A) (k : A -> option B)
  : option B :=
  match o with Some a => k a | None => None end.

Definition add64 (a b : Q) : option Q := finite (round64 (a + b)).
Definition sub64 (a b : Q) : option Q := finite (round64 (a - b)).
Definition mul64 (a b : Q) : option Q := finite (round64 (a * b)).
Definition div64 (a b : Q) : option Q := finite (round64 (a / b)).

(** *** Descriptive statistics of a cleaned numeric series

    [min] and [max] select a value of the series.  [mean], [median] and
    [std] convert the values to [float64] and compute in binary64; a
    result that is not a finite number (the NaN of an empty series, an
    overflow) is [None]. *)

Definition Qltb (a b : Q) : bool := negb (Qle_bool b a).
Definition qmin (a b : Q) : Q := if Qle_bool a b then a else b.
Definition qmax (a b : Q) : Q := if Qle_bool a b then b else a.

(** Insertion into a list sorted in increasing order. *)
Fixpoint insert_sorted (x : Q) (sorted : list Q) : list Q :=
  match sorted with
  | [] => [x]
  | y :: r => if Qle_bool x y then x :: y :: r else y :: insert_sorted x r
  end.

(** [sorted(xs)] *)
Definition sort (xs : list Q) : list Q := fold_right insert_sorted [] xs.

Definition of_nat (n : nat) : Q := inject_Z (Z.of_nat n).

(** [values.sum()], adding from left to right.  This is the order of
    bottleneck's loop, which pandas uses when that package is installed,
    and of numpy's reduction for fewer than eight values; numpy adds a
    longer series in blocks. *)
Definition sum64 (xs : list Q) : option Q :=
  fold_left (fun acc x => obind acc (fun s => add64 s x)) xs (Some 0).

(** [s.mean()]: the sum divided by the count. *)
Definition mean (xs : list Q) : option Q :=
  match xs with
  | [] => None
  | _ =>
      obind (sum64 (map round64 xs))
            (fun total => div64 total (of_nat (List.length xs)))
  end.

(** [s.min()] and [s.max()] *)
Definition min (xs : list Q) : option Q :=
  match xs with
  | [] => None
  | x :: xs' => Some (fold_left qmin xs' x)
  end.

Definition max (xs : list Q) : option Q :=
  match xs with
  | [] => None
  | x :: xs' => Some (fold_left qmax xs' x)
  end.

(** [s.median()]: the middle value of the sorted series, or the mean
    of the two middle values. *)
Definition median (xs : list Q) : option Q :=
  let n := List.length xs in
  let sorted := sort (map round64 xs) in
  match xs with
  | [] => None
  | _ =>
      if Nat.odd n then finite (nth (n / 2) sorted 0)
      else obind (add64 (nth (n / 2 - 1) sorted 0) (nth (n / 2) sorted 0))
                 (fun total => div64 total 2)
  end.

(** The sample variance ([ddof=1]) whose square root [s.std()] returns:
    the squared deviations from the mean, summed and divided by
    [count - 1]; NaN for fewer than two values. *)
Definition var (xs : list Q) : option Q :=
  obind (mean xs) (fun avg =>
    if (List.length xs <? 2)%nat then None
    else
      obind (fold_left
               (fun acc x =>
                  obind acc (fun total =>
                  obind (sub64 avg (round64 x)) (fun d =>
                  obind (mul64 d d) (fun sqr => add64 total sqr))))
               xs (Some 0))
            (fun total => div64 total (of_nat (List.length xs - 1)))).

(** *** [pd.cut] with explicit bin edges and the default [right=True] *)

Inductive edge : Type :=
| Fin (q : Q)
| PosInf.          (* float('inf') *)

Definition edge_ltb (b : edge) (x : Q) : bool :=
  match b with Fin q => Qltb q x | PosInf => false end.

Definition edge_eqb (b : edge) (x : Q) : bool :=
  match b with Fin q => Qeq_bool q x | PosInf => false end.

(** [bins.searchsorted(x, side='left')] on increasing [bins]: the
    number of edges strictly below [x]. *)
Fixpoint searchsorted_left (bins : list edge) (x : Q) : nat :=
  match bins with
  | [] => 0
  | b :: bs => if edge_ltb b x then S (searchsorted_left bs x) else 0
  end.

(** The label of one value: [ids] is the 1-based index of its interval
    [(bins[ids-1], bins[ids]]]; [include_lowest] sends the first edge
    itself to the first interval; a value outside every interval gets no
    category. *)
Definition cut_one (bins : list edge) (labels : list string)
    (include_lowest : bool) (x : Q) : option string :=
  let ids := searchsorted_left bins x in
  let ids :=
    match bins with
    | b0 :: _ => if include_lowest && edge_eqb b0 x then 1%nat else ids
    | [] => ids
    end in
  if (ids =? List.length bins)%nat || (ids =? 0)%nat then None
  else nth_error labels (ids - 1).

Definition cut (xs : list Q) (bins : list edge) (labels : list string)
    (include_lowest : bool) : list (option string) :=
  map (cut_one bins labels include_lowest) xs.

(** *** [value_counts] *)

Inductive value : Type :=
| VNum (q : Q)
| VStr (s : string).

Definition value_eqb (a b : value) : bool :=
  match a, b with
  | VNum x, VNum y => Qeq_bool x y
  | VStr x, VStr y => String.eqb x y
  | _, _ => false
  end.

Definition occurrences (k : value) (xs : list value) : nat :=
  List.length (filter (value_eqb k) xs).

(** The distinct values in order of first appearance. *)
Definition distinct (xs : list value) : list value :=
  fold_left
    (fun seen x => if existsb (value_eqb x) seen then seen else seen ++ [x])
    xs [].

Fixpoint insert_desc (p : value * nat) (sorted : list (value * nat))
  : list (value * nat) :=
  match sorted with
  | [] => [p]
  | q :: r =>
      if (snd q <=? snd p)%nat then p :: q :: r else q :: insert_desc p r
  end.

(** Descending by count; equal counts keep their order. *)
Definition sort_desc (l : list (value * nat)) : list (value * nat) :=
  fold_right insert_desc [] l.

(** [s.value_counts()] of a cleaned series.  A categorical series
    ([categories] given) counts every category, observed or not; any
    other series counts its distinct values. *)
Definition value_counts (categories : option (list value))
    (xs : list value) : list (value * nat) :=
  let ks := match categories with Some cs => cs | None => distinct xs end in
  sort_desc (map (fun k => (k, occurrences k xs)) ks).

(** [s.nunique()] *)
Definition nunique (xs : list value) : nat := List.length (distinct xs).

(** The values of a column, as [value]s. *)
Definition values_of (s : Series) : list (option value) :=
  match s with
  | NumSeries xs => map (option_map VNum) xs
  | ObjSeries xs => map (option_map VStr) xs
  end.

End Pandas.

(** ** The script *)

Module Script.

Import Pandas.

(** The statistics [visualize_continuous] prints.  A statistic that is
    not a finite number (NaN, infinity) is [None]; the standard
    deviation is kept as its square. *)
Record summary : Type := {
  s_count : nat;
  s_mean : option Q;
  s_median : option Q;
  s_min : option Q;
  s_max : option Q;
  s_var : option Q
}.

(** What the script writes to the console and the display. *)
Inductive event : Type :=
| UsingDataset (name : string)
| UsingFirstDataset (name : string)
| WarnContinuousNotFound (col : string) (available : list string)
| WarnNotNumeric (col : string)
| VisualizingContinuous (col : string)
| Histogram (column_name : string) (data : list Q)
| ContinuousSummary (column_name : string) (s : summary)
| VisualizingCategorical (col : string)
| BarChart (column_name : string) (counts : list (value * nat))
| CategoricalSummary (column_name : string) (unique total : nat)
    (top : list (value * nat))
| CannotCreateCategories (col : string)
| WarnCategoricalNotFound (col : string) (available : list string).

(** A computation: from the trace so far to the trace after it, with the
    value returned or the exception raised. *)
Definition M (A : Type) : Type := list event -> list event * result A.

Definition ret {A} (a : A) : M A := fun tr => (tr, Ok a).

Definition raise {A} (e : exn) : M A := fun tr => (tr, Raise e).

Definition bind {A B} (c : M A) (k : A -> M B) : M B :=
  fun tr =>
    match c tr with
    | (tr', Ok a) => k a tr'
    | (tr', Raise e) => (tr', Raise e)
    end.

Definition emit (e : event) : M unit := fun tr => (tr ++ [e], Ok tt).

Definition lift {A} (r : result A) : M A := fun tr => (tr, r).

Notation "x <- c ;; k" := (bind c (fun x => k))
  (at level 61, c at next level, right associativity).
Notation "c ;; k" := (bind c (fun _ => k))
  (at level 61, right associativity).

(** *** The archive *)

(** A ZIP archive: its entries in archive order, name and bytes. *)
Definition archive : Type := list (string * string).

(** [z.namelist()] *)
Definition namelist (z : archive) : list string := map fst z.

(** [z.open(name)]: when a name occurs more than once, the last entry of
    that name is the one opened. *)
Definition z_open (z : archive) (name : string) : result string :=
  fold_left
    (fun found e => if String.eqb (fst e) name then Ok (snd e) else found)
    z (Raise KeyError).

Definition is_csv (file : string) : bool :=
  Str.endswith ".csv" (Str.lower file).

(** The body of [load_all_csv_from_zip] for one archive member. *)
Definition parse_entry (file bytes : string) : result DataFrame :=
  if Str.contains "Metadata" file then read_csv 0 bytes
  else read_csv 4 bytes.

(** The loop of [load_all_csv_from_zip] over [z.namelist()]. *)
Fixpoint load_loop (z : archive) (names : list string)
    (dataframes : Dict.t DataFrame) : result (Dict.t DataFrame) :=
  match names with
  | [] => Ok dataframes
  | file :: rest =>
      if is_csv file then
        rbind (z_open z file) (fun f =>
        rbind (parse_entry file f) (fun df =>
        load_loop z rest (Dict.set (Str.basename file) df dataframes)))
      else load_loop z rest dataframes
  end.

Definition load_all_csv_from_zip (z : archive) : result (Dict.t DataFrame) :=
  load_loop z (namelist z) [].

(** *** Choosing the dataset *)

(** The [for filename, df in datasets.items()] loop: the first name
    without "Metadata", or [None]. *)
Fixpoint main_data_file (items : Dict.t DataFrame) : option string :=
  match items with
  | [] => None
  | (filename, _) :: rest =>
      if negb (Str.contains "Metadata" filename) then Some filename
      else main_data_file rest
  end.

(** The fallback [list(datasets.values())[0]], then
    [list(datasets.keys())[0]] for the message. *)
Definition first_dataset (datasets : Dict.t DataFrame) : M DataFrame :=
  match nth_error (Dict.values datasets) 0 with
  | None => raise IndexError
  | Some df =>
      match nth_error (Dict.keys datasets) 0 with
      | None => raise IndexError
      | Some k => emit (UsingFirstDataset k) ;; ret df
      end
  end.

Definition select_dataset (datasets : Dict.t DataFrame) : M DataFrame :=
  match main_data_file datasets with
  | Some name =>
      if Str.truthy name then
        match Dict.get name datasets with
        | Some df => emit (UsingDataset name) ;; ret df
        | None => raise KeyError
        end
      else first_dataset datasets
  | None => first_dataset datasets
  end.

(** *** Configuration *)

Record config : Type := {
  categorical_column : option string;
  continuous_column : option string;
  CREATE_CATEGORICAL_FROM_CONTINUOUS : bool;
  CONTINUOUS_COLUMN_FOR_BINNING : string
}.

(** The values the script is written with. *)
Definition default_config : config := {|
  categorical_column := None;
  continuous_column := Some "2020";
  CREATE_CATEGORICAL_FROM_CONTINUOUS := true;
  CONTINUOUS_COLUMN_FOR_BINNING := "2020"
|}.

(** *** Visualization functions *)

(** The statistics of a series without missing values. *)
Definition describe (series_clean : list Q) : summary := {|
  s_count := List.length series_clean;
  s_mean := mean series_clean;
  s_median := median series_clean;
  s_min := min series_clean;
  s_max := max series_clean;
  s_var := var series_clean
|}.

(** [plt.hist] is taken to draw the series it is given.  It raises on
    some series (values too close together for thirty bins of positive
    width), before anything is printed: what is stated of this function
    holds when it returns. *)
Definition visualize_continuous (series : list (option Q))
    (column_name : string) : M unit :=
  let series_clean := dropna series in
  emit (Histogram column_name series_clean) ;;
  emit (ContinuousSummary column_name (describe series_clean)).

(** [counts.plot(kind="bar")] on counts without any entry raises an
    [IndexError] inside the bar plot. *)
Definition visualize_categorical (categories : option (list value))
    (series : list (option value)) (column_name : string) (top_n : nat)
    : M unit :=
  let series_clean := dropna series in
  let counts := firstn top_n (value_counts categories series_clean) in
  match counts with
  | [] => raise IndexError
  | _ =>
      emit (BarChart column_name counts) ;;
      emit (CategoricalSummary column_name (nunique series_clean)
              (List.length series_clean) (firstn 10 counts))
  end.

(** *** Visualize the continuous variable *)

Definition continuous_stage (cfg : config) (df : DataFrame) : M unit :=
  match continuous_column cfg with
  | Some col =>
      if Str.truthy col then
        if negb (has_column col df) then
          emit (WarnContinuousNotFound col (columns df))
        else
          match column col df with
          | Some (NumSeries xs) =>
              emit (VisualizingContinuous col) ;;
              visualize_continuous xs col
          | Some (ObjSeries _) => emit (WarnNotNumeric col)
          | None => raise KeyError
          end
      else ret tt
  | None => ret tt
  end.

(** *** Create a categorical variable from the continuous one *)

Definition bins : list edge :=
  [Fin 0; Fin 1000000; Fin 5000000; Fin 10000000; Fin 50000000;
   Fin 100000000; Fin 500000000; PosInf].

Definition labels : list string :=
  ["< 1M"; "1M - 5M"; "5M - 10M"; "10M - 50M"; "50M - 100M";
   "100M - 500M"; "> 500M"].

(** [pd.cut(continuous_data, bins=bins, labels=labels,
    include_lowest=True)] on the column with its missing values dropped.
    Text cannot be compared with the edges. *)
Definition categorical_series (s : Series) : result (list (option string)) :=
  match s with
  | NumSeries xs => Ok (cut (dropna xs) bins labels true)
  | ObjSeries xs =>
      match dropna xs with
      | [] => Ok []
      | _ :: _ => Raise TypeError
      end
  end.

Definition categorical_column_name (col : string) : string :=
  col ++ " (Population Size Categories)".

(** The [elif categorical_column:] branch. *)
Definition categorical_stage (cfg : config) (df : DataFrame) : M unit :=
  match categorical_column cfg with
  | Some col =>
      if Str.truthy col then
        if negb (has_column col df) then
          emit (WarnCategoricalNotFound col (columns df))
        else
          match column col df with
          | Some s =>
              emit (VisualizingCategorical col) ;;
              visualize_categorical None (values_of s) col 30
          | None => raise KeyError
          end
      else ret tt
  | None => ret tt
  end.

(** The [if CREATE_CATEGORICAL_FROM_CONTINUOUS and ... in df.columns:]
    statement with its [elif]. *)
Definition binning_stage (cfg : config) (df : DataFrame) : M unit :=
  let col := CONTINUOUS_COLUMN_FOR_BINNING cfg in
  if CREATE_CATEGORICAL_FROM_CONTINUOUS cfg && has_column col df then
    match column col df with
    | Some s =>
        if String.eqb col "2020" || is_numeric_dtype s then
          cs <- lift (categorical_series s) ;;
          emit (VisualizingCategorical (categorical_column_name col)) ;;
          visualize_categorical (Some (map VStr labels))
            (map (option_map VStr) cs) (categorical_column_name col) 10
        else emit (CannotCreateCategories col)
    | None => raise KeyError
    end
  else categorical_stage cfg df.

(** *** The whole script *)

(** The two visualization statements, one after the other. *)
Definition visualizations (cfg : config) (df : DataFrame) : M unit :=
  continuous_stage cfg df ;;
  binning_stage cfg df.

Definition script (cfg : config) (z : archive) : M unit :=
  datasets <- lift (load_all_csv_from_zip z) ;;
  df <- select_dataset datasets ;;
  visualizations cfg df.

(** A run starts with an empty console. *)
Definition run (cfg : config) (z : archive) : list event * result unit :=
  script cfg z [].

End Script.

(** * Vocabulary of the statements *)

Import Pandas Script.

(** The last character of a string. *)
Fixpoint last_char (s : string) : option ascii :=
  match s with
  | EmptyString => None
  | String c EmptyString => Some c
  | String _ s' => last_char s'
  end.

(** [suffix s t]: [t] ends with [s]. *)
Definition suffix (s t : string) : Prop := exists pre, t = (pre ++ s)%string.

(** Lines joined into a text, each followed by the line end [eol]. *)
Fixpoint unlines (eol : string) (ls : list string) : string :=
  match ls with
  | [] => EmptyString
  | l :: ls' => (l ++ eol ++ unlines eol ls')%string
  end.

Definition newline : string := String Str.LF EmptyString.

(** *** Sample archives *)

(** A data file of the dataset family: four preamble lines, the header,
    two countries. *)
Definition sample_data : string :=
  unlines newline
    ["Data Source,World Development Indicators"; EmptyString;
     "Last Updated Date,2024-06-28"; EmptyString;
     "Country Name,Country Code,2019,2020";
     "A,AAA,100,2000000";
     "B,BBB,200,6000000"].

Definition sample_metadata : string :=
  unlines newline ["Country Code,Region"; "AAA,Asia"; "BBB,Europe"].

(** A metadata entry followed by a data entry. *)
Definition sample_archive : archive :=
  [("Metadata_Country_API_SP.POP.TOTL.csv", sample_metadata);
   ("API_SP.POP.TOTL_DS2_en_csv_v2_34.csv", sample_data)].

(** Two entries with the same base name in different directories. *)
Definition clashing_archive : archive :=
  [("old/population.csv", sample_data);
   ("notes.txt", "see new/");
   ("new/population.csv",
    unlines newline
      ["Data Source,World Development Indicators"; EmptyString;
       "Last Updated Date,2025-01-01"; EmptyString;
       "Country Name,Country Code,2020";
       "C,CCC,7000000"])].

(** *** The ranges of the bucket scheme, read off [bins] *)

(** [above b v]: the edge lies strictly below the value. *)
Definition above (b : edge) (v : Q) : Prop :=
  match b with Fin q => q < v | PosInf => False end.

Definition at_edge (b : edge) (v : Q) : Prop :=
  match b with Fin q => q == v | PosInf => False end.

(** [within v b]: the value does not exceed the edge. *)
Definition within (v : Q) (b : edge) : Prop :=
  match b with Fin q => v <= q | PosInf => True end.

(** Range [i] of the scheme: [(bins[i], bins[i+1]]], the first range
    taking in its lower edge as well. *)
Definition in_bucket (i : nat) (v : Q) : Prop :=
  match nth_error bins i, nth_error bins (S i) with
  | Some lo, Some hi =>
      (above lo v \/ (i = 0%nat /\ at_edge lo v)) /\ within v hi
  | _, _ => False
  end.

(** The label [pd.cut] gives one value under the script's scheme. *)
Definition label_of (v : Q) : option string := cut_one bins labels true v.

(** *** Missing values *)

Definition non_missing {A} (x : option A) : bool :=
  match x with Some _ => true | None => false end.

(** The number of values of a series that are not missing. *)
Definition count_non_missing {A} (series : list (option A)) : nat :=
  List.length (filter non_missing series).

(** *** CSV texts *)

Definition CRLF : string := String Str.CR (String Str.LF EmptyString).

(** The line ends of the texts considered: LF or CRLF. *)
Definition eol_ok (eol : string) : Prop := eol = newline \/ eol = CRLF.

(** A line holds no line-end character. *)
Fixpoint no_eol (l : string) : bool :=
  match l with
  | EmptyString => true
  | String c l' =>
      negb (Ascii.eqb c Str.LF) && negb (Ascii.eqb c Str.CR) && no_eol l'
  end.

(** The table with header line [header] and data lines [rows]. *)
Definition table_of_lines (header : string) (rows : list string)
  : result DataFrame :=
  rbind (tokenize_rows (List.length (fields header))
           (filter (fun l => negb (blank l)) rows))
        (fun rs => Ok (make_table header rs)).

(** *** The end-to-end scenario *)

Definition scenario_header : string := "Country Name,Country Code,2019,2020".

Definition scenario_rows : list string :=
  ["A,AAA,100,2000000"; "B,BBB,200,6000000"].

(** The data entry of the scenario: four preamble lines, the header and
    the two data rows. *)
Definition scenario_bytes (bom eol b1 b2 b3 b4 : string) : string :=
  (bom ++ unlines eol
            (b1 :: b2 :: b3 :: b4 :: scenario_header :: scenario_rows))%string.

Definition scenario_table : DataFrame :=
  [("Country Name", ObjSeries [Some "A"; Some "B"]);
   ("Country Code", ObjSeries [Some "AAA"; Some "BBB"]);
   ("2019", NumSeries [Some 100; Some 200]);
   ("2020", NumSeries [Some 2000000; Some 6000000])].

(** *** Configurations and tables for the visualization paths *)

(** Only the binning path is configured. *)
Definition binning_only_config : config := {|
  categorical_column := None;
  continuous_column := None;
  CREATE_CATEGORICAL_FROM_CONTINUOUS := true;
  CONTINUOUS_COLUMN_FOR_BINNING := "2020"
|}.

(** Binning is pointed at a text column. *)
Definition text_binning_config : config := {|
  categorical_column := None;
  continuous_column := Some "2020";
  CREATE_CATEGORICAL_FROM_CONTINUOUS := true;
  CONTINUOUS_COLUMN_FOR_BINNING := "Country Name"
|}.

(** Binning on "2019", the continuous path on "2020". *)
Definition split_config : config := {|
  categorical_column := None;
  continuous_column := Some "2020";
  CREATE_CATEGORICAL_FROM_CONTINUOUS := true;
  CONTINUOUS_COLUMN_FOR_BINNING := "2019"
|}.

(** A table that has no column "2020". *)
Definition table_without_2020 : DataFrame :=
  [("Country Name", ObjSeries [Some "A"; Some "B"]);
   ("2019", NumSeries [Some 100; Some 2000000])].

(** *** The loader, entry by entry *)

(** The archive without its entries that are not CSV files. *)
Definition csv_entries (z : archive) : archive :=
  filter (fun e => is_csv (fst e)) z.

(** What one turn of the loader's loop reads for a member name:
    [z.open(file)] followed by [pd.read_csv]. *)
Definition read_entry (z : archive) (file : string) : result DataFrame :=
  rbind (z_open z file) (parse_entry file).

(** The distinct names of a list, in order of first occurrence, after
    those already [seen]. *)
Definition first_occurrences (seen names : list string) : list string :=
  fold_left
    (fun acc k => if in_dec string_dec k acc then acc else acc ++ [k])
    names seen.

(** The string has no '/'. *)
Fixpoint no_slash (s : string) : bool :=
  match s with
  | EmptyString => true
  | String c s' => negb (Ascii.eqb c "/"%char) && no_slash s'
  end.

(** *** Archives that fail to load *)

(** A data file cut off after its preamble. *)
Definition truncated_data : string :=
  unlines newline
    ["Data Source,World Development Indicators"; EmptyString;
     "Last Updated Date,2024-06-28"].

(** A readable metadata entry, a truncated data entry, a complete one. *)
Definition truncated_archive : archive :=
  [("Metadata_Country_API_SP.POP.TOTL.csv", sample_metadata);
   ("README.txt", "population, total");
   ("API_SP.POP.TOTL_DS2_en_csv_v2_34.csv", truncated_data);
   ("backup/API_SP.POP.TOTL_DS2_en_csv_v2_33.csv", sample_data)].

(** *** Tables whose column "2020" is text *)

(** ".." stands for a missing figure in some exports; it makes the column
    text. *)
Definition table_text_2020 : DataFrame :=
  [("Country Name", ObjSeries [Some "A"; Some "B"]);
   ("2020", ObjSeries [Some ".."; Some "6000000"])].

(** Whether an event is a histogram. *)
Definition is_histogram (e : event) : bool :=
  match e with Histogram _ _ => true | _ => false end.

(** *** Bar charts *)

(** The number of observations a list of counts accounts for. *)
Definition total_of (counts : list (value * nat)) : nat :=
  list_sum (map snd counts).

(** [p] comes before [q] in a descending-frequency chart. *)
Definition not_less_frequent (p q : value * nat) : Prop :=
  (snd q <= snd p)%nat.

(** The values of a column that the bucket scheme covers: those that are
    not missing and not negative. *)
Definition covered_values (xs : list (option Q)) : list Q :=
  filter (Qle_bool 0) (dropna xs).

(** A column with a negative and a missing entry. *)
Definition mixed_column : list (option Q) :=
  [Some 2000000; None; Some (-5); Some 0; Some 700000000; Some 6000000].

(** A table with the column [mixed_column] under "2020". *)
Definition mixed_table : DataFrame :=
  [("Country Name",
    ObjSeries [Some "A"; Some "B"; Some "C"; Some "D"; Some "E"; Some "F"]);
   ("2020", NumSeries mixed_column)].

(** Only the plain categorical path is configured, on "2020". *)
Definition categorical_only_config : config := {|
  categorical_column := Some "2020";
  continuous_column := None;
  CREATE_CATEGORICAL_FROM_CONTINUOUS := false;
  CONTINUOUS_COLUMN_FOR_BINNING := "2020"
|}.

(** A binary64 value: rounding leaves it as it is. *)
Definition representable (q : Q) : Prop := round64 q == q.

(** Rounding to the multiples of [2^c], and these multiples. *)
Definition round_at (c : Z) (q : Q) : Q :=
  inject_Z (rne (q * pow2 (- c))) * pow2 c.

Definition on_grid (c : Z) (q : Q) : Prop :=
  exists m : Z, q == inject_Z m * pow2 c.

(** What [f"{q:.2f}"] prints, in hundredths: the decimal with two
    places nearest to the exact value. *)
Definition two_decimals (q : Q) : Z := rne (q * 100).

(** The value of a primitive binary64 float. *)
Definition float_value (f : PrimFloat.float) : option Q :=
  match FloatOps.Prim2SF f with
  | SpecFloat.S754_zero _ => Some 0
  | SpecFloat.S754_finite sign m e =>
      Some (Qred (inject_Z (if sign then Zneg m else Zpos m) * pow2 e))
  | _ => None
  end.

(** The cell [782.015] as [float64] reads it, as a rational and as a
    primitive float. *)
Definition cell_782_015 : Q := 6878676684761989 # 8796093022208.

Definition float_782_015 : PrimFloat.float :=
  FloatOps.SF2Prim (SpecFloat.S754_finite false 6878676684761989 (-43)).

(** The primitive float [m * 2^e], negated when [negative]. *)
Definition primitive_float (negative : bool) (m : positive) (e : Z)
  : PrimFloat.float :=
  FloatOps.SF2Prim (SpecFloat.S754_finite negative m e).

(** *** CSV entries in plain text *)









Definition is_digit (c : ascii) : bool :=
  let n := nat_of_ascii c in (48 <=? n)%nat && (n <=? 57)%nat.

Fixpoint all_digits (s : string) : bool :=
  match s with
  | EmptyString => true
  | String c s' => is_digit c && all_digits s'
  end.













(** * Tactics *)

(** Decide the comparisons of [v] against the edges, one at a time,
    discarding the combinations the context rules out. *)
Ltac edge_cases :=
  repeat match goal with
  | |- context [Qle_bool ?a ?b] =>
      let E := fresh "E" in
      destruct (Qle_bool a b) eqn:E;
      [ apply Qle_bool_iff in E
      | apply not_true_iff_false in E; rewrite Qle_bool_iff in E;
        apply Qnot_le_lt in E ];
      try (exfalso; lra)
  | |- context [Qeq_bool ?a ?b] =>
      let E := fresh "E" in
      destruct (Qeq_bool a b) eqn:E;
      [ apply Qeq_bool_iff in E | apply Qeq_bool_neq in E ];
      try (exfalso; lra)
  end.

Ltac unfold_cut :=
  unfold label_of, cut_one, bins, searchsorted_left, edge_ltb, edge_eqb, Qltb.

(** Unfold membership in a range down to comparisons. *)
Ltac show_bucket :=
  unfold in_bucket, bins; cbn [nth_error above within at_edge].

(** * Properties *)

(** ** Strings *)

Lemma last_char_cons (c : ascii) (s : string) :
  s <> EmptyString -> last_char (String c s) = last_char s.
Proof. destruct s; [congruence | reflexivity]. Qed.

Lemma last_char_lower (s : string) :
  last_char (Str.lower s) = option_map Str.lower_char (last_char s).
Proof.
  induction s as [| c s IH]; [reflexivity |].
  destruct s as [| d s]; [reflexivity |].
  change (last_char (Str.lower (String d s)) =
          option_map Str.lower_char (last_char (String d s))).
  exact IH.
Qed.

Lemma endswith_last_char (suf s : string) :
  suf <> EmptyString -> Str.endswith suf s = true ->
  last_char s = last_char suf.
Proof.
  intros Hsuf. induction s as [| c s IH]; intros H; cbn [Str.endswith] in H.
  - destruct suf; [congruence | discriminate].
  - apply orb_true_iff in H. destruct H as [H | H].
    + apply String.eqb_eq in H. rewrite <- H. reflexivity.
    + destruct s as [| d s].
      * cbn [Str.endswith] in H. destruct suf; [congruence | discriminate].
      * rewrite <- (IH H). reflexivity.
Qed.

Lemma lower_char_slash (c : ascii) :
  Str.lower_char c = "v"%char -> c <> "/"%char.
Proof. intros H ->. discriminate. Qed.

Lemma basename_from_truthy (rest cur : string) :
  cur <> EmptyString -> last_char rest <> Some "/"%char ->
  Str.truthy (Str.basename_from cur rest) = true.
Proof.
  revert cur. induction rest as [| c r IH]; intros cur Hcur Hlast; simpl.
  - destruct cur; [congruence | reflexivity].
  - destruct r as [| d r'].
    + simpl in Hlast. destruct (Ascii.eqb c "/"%char) eqn:E.
      * apply Ascii.eqb_eq in E. subst. congruence.
      * simpl. destruct cur; [congruence | reflexivity].
    + assert (Hl : last_char (String d r') <> Some "/"%char) by exact Hlast.
      destruct (Ascii.eqb c "/"%char); apply IH; auto; discriminate.
Qed.

(** The key under which a CSV entry is stored is never the empty string. *)
Lemma is_csv_basename_truthy (file : string) :
  is_csv file = true -> Str.truthy (Str.basename file) = true.
Proof.
  unfold is_csv, Str.basename. intros H.
  apply endswith_last_char in H; [| discriminate].
  rewrite last_char_lower in H. simpl in H.
  apply basename_from_truthy.
  - intros ->. discriminate.
  - destruct (last_char file) as [c |]; [| discriminate].
    simpl in H. injection H as H. apply lower_char_slash in H. congruence.
Qed.

Lemma suffix_refl (s : string) : suffix s s.
Proof. exists EmptyString. reflexivity. Qed.

Lemma suffix_cons (c : ascii) (s t : string) :
  suffix (String c s) t -> suffix s t.
Proof.
  intros [pre ->]. exists (pre ++ String c EmptyString)%string.
  induction pre as [| a pre IH]; simpl; [reflexivity | now rewrite IH].
Qed.

Lemma basename_from_suffix (rest cur : string) :
  suffix rest cur -> suffix (Str.basename_from cur rest) cur.
Proof.
  revert cur. induction rest as [| c r IH]; intros cur H; simpl.
  - apply suffix_refl.
  - apply suffix_cons in H as Hr.
    destruct (Ascii.eqb c "/"%char).
    + destruct (IH r (suffix_refl r)) as [p Hp]. destruct Hr as [q Hq].
      exists (q ++ p)%string. rewrite Hq at 1. rewrite Hp at 1.
      clear. induction q as [| a q IHq]; simpl; [reflexivity | now rewrite IHq].
    + apply IH, Hr.
Qed.

Lemma contains_suffix (sub s t : string) :
  suffix s t -> Str.contains sub s = true -> Str.contains sub t = true.
Proof.
  intros [pre ->] H. induction pre as [| a pre IH]; simpl; [exact H |].
  rewrite IH. apply orb_true_r.
Qed.

Lemma contains_basename (sub p : string) :
  Str.contains sub p = false -> Str.contains sub (Str.basename p) = false.
Proof.
  intros H. destruct (Str.contains sub (Str.basename p)) eqn:E; [| reflexivity].
  rewrite (contains_suffix sub _ p (basename_from_suffix p p (suffix_refl p)) E)
    in H.
  discriminate.
Qed.

(** ** Dictionaries *)

Lemma get_set_same {V} (k : string) (v : V) (d : Dict.t V) :
  Dict.get k (Dict.set k v d) = Some v.
Proof.
  induction d as [| [k' v'] d IH]; simpl.
  - now rewrite String.eqb_refl.
  - destruct (String.eqb k' k) eqn:E; simpl; rewrite E; [reflexivity | exact IH].
Qed.

Lemma get_set_other {V} (k k' : string) (v : V) (d : Dict.t V) :
  k <> k' -> Dict.get k' (Dict.set k v d) = Dict.get k' d.
Proof.
  intros Hne. induction d as [| [k0 v0] d IH]; simpl.
  - destruct (String.eqb k k') eqn:E; [| reflexivity].
    apply String.eqb_eq in E. contradiction.
  - destruct (String.eqb k0 k) eqn:E; simpl.
    + apply String.eqb_eq in E. subst k0.
      destruct (String.eqb k k') eqn:E'; [| reflexivity].
      apply String.eqb_eq in E'. contradiction.
    + now rewrite IH.
Qed.

Lemma keys_set {V} (k : string) (v : V) (d : Dict.t V) :
  Dict.keys (Dict.set k v d) =
  if in_dec string_dec k (Dict.keys d) then Dict.keys d
  else Dict.keys d ++ [k].
Proof.
  unfold Dict.keys. induction d as [| [k0 v0] d IH]; [reflexivity |].
  cbn [Dict.set]. destruct (String.eqb k0 k) eqn:E.
  - apply String.eqb_eq in E. subst k0. cbn [map fst].
    destruct (in_dec string_dec k (k :: map fst d)) as [Hin | Hnin];
      [reflexivity | exfalso; apply Hnin; now left].
  - apply String.eqb_neq in E. cbn [map fst]. rewrite IH.
    destruct (in_dec string_dec k (map fst d)) as [Hin | Hnin],
             (in_dec string_dec k (k0 :: map fst d)) as [Hin' | Hnin'];
      try reflexivity.
    + exfalso. apply Hnin'. now right.
    + exfalso. destruct Hin' as [Heq | Hin']; [now apply E | now apply Hnin].
Qed.

Lemma in_keys_set {V} (k k' : string) (v : V) (d : Dict.t V) :
  In k' (Dict.keys (Dict.set k v d)) <-> k' = k \/ In k' (Dict.keys d).
Proof.
  rewrite keys_set. destruct (in_dec string_dec k (Dict.keys d)) as [Hin | Hnin].
  - split; [auto | intros [-> | H]; assumption].
  - rewrite in_app_iff. simpl. split; [intros [H | [H | []]] | intros [H | H]]; auto.
Qed.

Lemma nodup_keys_set {V} (k : string) (v : V) (d : Dict.t V) :
  NoDup (Dict.keys d) -> NoDup (Dict.keys (Dict.set k v d)).
Proof.
  intros H. rewrite keys_set.
  destruct (in_dec string_dec k (Dict.keys d)) as [Hin | Hnin]; [exact H |].
  apply NoDup_app; [exact H | repeat constructor; intros [] | ].
  intros x Hx [<- | []]. contradiction.
Qed.

Lemma get_skip_prefix {V} (k : string) (pre rest : Dict.t V) :
  (forall e, In e pre -> fst e <> k) ->
  Dict.get k (pre ++ rest) = Dict.get k rest.
Proof.
  induction pre as [| [k0 v0] pre IH]; intros H; simpl; [reflexivity |].
  destruct (String.eqb k0 k) eqn:E.
  - apply String.eqb_eq in E. exfalso. apply (H (k0, v0)); [now left | exact E].
  - apply IH. intros e He. apply H. now right.
Qed.


(** ** The loader *)

Lemma rbind_ok {A B} (r : result A) (k : A -> result B) (b : B) :
  rbind r k = Ok b -> exists a, r = Ok a /\ k a = Ok b.
Proof. destruct r as [a | e]; simpl; [eauto | discriminate]. Qed.

Lemma z_open_fold_absent (name : string) (post : archive) (acc : result string) :
  (forall e, In e post -> fst e <> name) ->
  fold_left
    (fun found e => if String.eqb (fst e) name then Ok (snd e) else found)
    post acc = acc.
Proof.
  revert acc. induction post as [| e post IH]; intros acc H; simpl; [reflexivity |].
  destruct (String.eqb (fst e) name) eqn:E.
  - apply String.eqb_eq in E. exfalso. apply (H e); [now left | exact E].
  - apply IH. intros e' He'. apply H. now right.
Qed.

(** Opening a name yields the bytes of the last entry of that name. *)
Lemma z_open_last (pre post : archive) (name bytes : string) :
  (forall e, In e post -> fst e <> name) ->
  z_open (pre ++ (name, bytes) :: post) name = Ok bytes.
Proof.
  intros H. unfold z_open. rewrite fold_left_app. simpl.
  rewrite String.eqb_refl. now apply z_open_fold_absent.
Qed.

(** One step of the loop on a CSV entry. *)
Lemma load_loop_csv_step (z : archive) (file : string) (rest : list string)
    (d m : Dict.t DataFrame) :
  is_csv file = true ->
  load_loop z (file :: rest) d = Ok m ->
  exists bytes df,
    z_open z file = Ok bytes /\ parse_entry file bytes = Ok df /\
    load_loop z rest (Dict.set (Str.basename file) df d) = Ok m.
Proof.
  intros Hcsv H. simpl in H. rewrite Hcsv in H.
  apply rbind_ok in H as [bytes [Hopen H]].
  apply rbind_ok in H as [df [Hparse H]].
  eauto.
Qed.

Lemma load_loop_keys (z : archive) (names : list string) :
  forall (d m : Dict.t DataFrame),
  load_loop z names d = Ok m ->
  forall k,
    In k (Dict.keys m) <->
    In k (Dict.keys d) \/ In k (map Str.basename (filter is_csv names)).
Proof.
  induction names as [| file rest IH]; intros d m H k.
  - simpl in H. injection H as H. subst m. simpl. tauto.
  - destruct (is_csv file) eqn:Hcsv.
    + destruct (load_loop_csv_step _ _ _ _ _ Hcsv H) as [bytes [df [_ [_ Hrest]]]].
      rewrite (IH _ _ Hrest k), in_keys_set. simpl. rewrite Hcsv. simpl.
      intuition congruence.
    + simpl in H. rewrite Hcsv in H. rewrite (IH _ _ H k).
      simpl. rewrite Hcsv. tauto.
Qed.

Lemma load_loop_nodup (z : archive) (names : list string) :
  forall (d m : Dict.t DataFrame),
  NoDup (Dict.keys d) -> load_loop z names d = Ok m -> NoDup (Dict.keys m).
Proof.
  induction names as [| file rest IH]; intros d m Hd H.
  - simpl in H. injection H as H. now subst m.
  - destruct (is_csv file) eqn:Hcsv.
    + destruct (load_loop_csv_step _ _ _ _ _ Hcsv H) as [bytes [df [_ [_ Hrest]]]].
      eapply IH; [| exact Hrest]. now apply nodup_keys_set.
    + simpl in H. rewrite Hcsv in H. eapply IH; eassumption.
Qed.

Lemma load_loop_get_untouched (z : archive) (names : list string) (k : string) :
  forall (d m : Dict.t DataFrame),
  (forall file, In file names -> is_csv file = true -> Str.basename file <> k) ->
  load_loop z names d = Ok m -> Dict.get k m = Dict.get k d.
Proof.
  induction names as [| file rest IH]; intros d m Hk H.
  - simpl in H. injection H as H. now subst m.
  - destruct (is_csv file) eqn:Hcsv.
    + destruct (load_loop_csv_step _ _ _ _ _ Hcsv H) as [bytes [df [_ [_ Hrest]]]].
      rewrite (IH _ _ (fun f Hf => Hk f (or_intror Hf)) Hrest).
      apply get_set_other. apply Hk; [now left | exact Hcsv].
    + simpl in H. rewrite Hcsv in H.
      apply (IH _ _ (fun f Hf => Hk f (or_intror Hf)) H).
Qed.

(** The table stored under a base name is the one parsed from the last
    CSV entry with that base name. *)
Lemma load_loop_get_last (z : archive) (front back : list string) (file : string) :
  forall (d m : Dict.t DataFrame),
  is_csv file = true ->
  (forall f, In f back -> is_csv f = true ->
             Str.basename f <> Str.basename file) ->
  load_loop z (front ++ file :: back) d = Ok m ->
  exists bytes df,
    z_open z file = Ok bytes /\ parse_entry file bytes = Ok df /\
    Dict.get (Str.basename file) m = Some df.
Proof.
  induction front as [| g front IH]; intros d m Hcsv Hback H.
  - destruct (load_loop_csv_step _ _ _ _ _ Hcsv H) as [bytes [df [Ho [Hp Hrest]]]].
    exists bytes, df. repeat split; try assumption.
    rewrite (load_loop_get_untouched _ _ _ _ _ Hback Hrest).
    apply get_set_same.
  - change ((g :: front) ++ file :: back) with (g :: (front ++ file :: back)) in H.
    destruct (is_csv g) eqn:Hg.
    + destruct (load_loop_csv_step _ _ _ _ _ Hg H) as [b' [df' [_ [_ Hrest]]]].
      eapply IH; eassumption.
    + simpl in H. rewrite Hg in H. eapply IH; eassumption.
Qed.

(** The table stored for an entry that no later CSV entry shadows is the
    one parsed from that entry's own bytes. *)
Lemma load_get_entry (z pre post : archive) (file bytes : string)
    (ds : Dict.t DataFrame) :
  z = pre ++ (file, bytes) :: post ->
  is_csv file = true ->
  (forall e, In e post -> is_csv (fst e) = true ->
             Str.basename (fst e) <> Str.basename file) ->
  load_all_csv_from_zip z = Ok ds ->
  exists df, parse_entry file bytes = Ok df /\
             Dict.get (Str.basename file) ds = Some df.
Proof.
  intros Hz Hcsv Hpost Hload.
  assert (Hnames : namelist z = map fst pre ++ file :: map fst post).
  { rewrite Hz. unfold namelist. now rewrite map_app. }
  unfold load_all_csv_from_zip in Hload. rewrite Hnames in Hload.
  destruct (load_loop_get_last z (map fst pre) (map fst post) file [] ds Hcsv)
    as [bytes' [df [Hopen [Hparse Hget]]]]; [| exact Hload |].
  - intros f Hf Hf'. apply in_map_iff in Hf as [e [<- He]]. now apply Hpost.
  - exists df. split; [| exact Hget].
    assert (Hb : z_open z file = Ok bytes).
    { rewrite Hz. apply z_open_last. intros e He Heq.
      apply (Hpost e He); rewrite Heq; [exact Hcsv | reflexivity]. }
    rewrite Hb in Hopen. injection Hopen as <-. exact Hparse.
Qed.

Lemma load_keys_truthy (z : archive) (ds : Dict.t DataFrame) :
  load_all_csv_from_zip z = Ok ds ->
  forall k, In k (Dict.keys ds) -> Str.truthy k = true.
Proof.
  intros H k Hk. apply (load_loop_keys _ _ _ _ H) in Hk.
  destruct Hk as [[] | Hk].
  apply in_map_iff in Hk as [file [<- Hfile]].
  apply filter_In in Hfile as [_ Hcsv].
  now apply is_csv_basename_truthy.
Qed.

(** ** The selector *)

Lemma main_data_file_first (pre post : Dict.t DataFrame) (k : string)
    (df : DataFrame) :
  (forall e, In e pre -> Str.contains "Metadata" (fst e) = true) ->
  Str.contains "Metadata" k = false ->
  main_data_file (pre ++ (k, df) :: post) = Some k.
Proof.
  intros Hpre Hk. induction pre as [| [k0 v0] pre IH]; cbn [app main_data_file].
  - now rewrite Hk.
  - pose proof (Hpre (k0, v0) (or_introl eq_refl)) as H0. cbn [fst] in H0.
    rewrite H0. cbn [negb].
    apply IH. intros e He. apply Hpre. now right.
Qed.

Lemma main_data_file_none (ds : Dict.t DataFrame) :
  (forall e, In e ds -> Str.contains "Metadata" (fst e) = true) ->
  main_data_file ds = None.
Proof.
  induction ds as [| [k0 v0] ds IH]; intros H; cbn [main_data_file];
    [reflexivity |].
  pose proof (H (k0, v0) (or_introl eq_refl)) as H0. cbn [fst] in H0.
  rewrite H0. cbn [negb].
  apply IH. intros e He. apply H. now right.
Qed.

(** Every mapping either has a first entry whose name lacks "Metadata",
    or consists of metadata entries only. *)
Lemma first_non_metadata_split (ds : Dict.t DataFrame) :
  (exists pre k df post,
      ds = pre ++ (k, df) :: post /\
      (forall e, In e pre -> Str.contains "Metadata" (fst e) = true) /\
      Str.contains "Metadata" k = false) \/
  (forall e, In e ds -> Str.contains "Metadata" (fst e) = true).
Proof.
  induction ds as [| [k0 v0] ds IH].
  - right. intros e [].
  - destruct (Str.contains "Metadata" k0) eqn:E.
    + destruct IH as [[pre [k [df [post [-> [Hpre Hk]]]]]] | Hall].
      * left. exists ((k0, v0) :: pre), k, df, post.
        repeat split; try assumption.
        intros e [<- | He]; [exact E | now apply Hpre].
      * right. intros e [<- | He]; [exact E | now apply Hall].
    + left. exists [], k0, v0, ds. repeat split; try assumption. intros e [].
Qed.

Lemma select_first_non_metadata (pre post : Dict.t DataFrame) (k : string)
    (df : DataFrame) (tr : list event) :
  (forall e, In e pre -> Str.contains "Metadata" (fst e) = true) ->
  Str.contains "Metadata" k = false ->
  Str.truthy k = true ->
  select_dataset (pre ++ (k, df) :: post) tr = (tr ++ [UsingDataset k], Ok df).
Proof.
  intros Hpre Hk Htruthy. unfold select_dataset.
  rewrite (main_data_file_first pre post k df Hpre Hk), Htruthy.
  rewrite get_skip_prefix.
  - simpl. now rewrite String.eqb_refl.
  - intros e He Heq. apply Hpre in He. rewrite Heq, Hk in He. discriminate.
Qed.

Lemma select_only_metadata (k : string) (df : DataFrame)
    (rest : Dict.t DataFrame) (tr : list event) :
  (forall e, In e ((k, df) :: rest) -> Str.contains "Metadata" (fst e) = true) ->
  select_dataset ((k, df) :: rest) tr = (tr ++ [UsingFirstDataset k], Ok df).
Proof.
  intros H. unfold select_dataset. now rewrite (main_data_file_none _ H).
Qed.

(** C2. When the archive holds no CSV entry the loader returns the empty
    mapping, and selecting from the empty mapping raises (Python's
    [IndexError] on [list(datasets.values())[0]]): the run stops there
    with nothing printed and no dataset chosen. *)
Theorem C2_empty_mapping_raises (cfg : config) (z : archive) (tr : list event) :
  (forall name, In name (namelist z) -> is_csv name = false) ->
  load_all_csv_from_zip z = Ok [] /\
  select_dataset [] tr = (tr, Raise IndexError) /\
  run cfg z = ([], Raise IndexError).
Proof.
  intros H.
  assert (Hload : forall names d,
             (forall name, In name names -> is_csv name = false) ->
             load_loop z names d = Ok d).
  { induction names as [| n names IH]; intros d Hn; simpl; [reflexivity |].
    rewrite (Hn n (or_introl eq_refl)). apply IH. intros m Hm. apply Hn. now right. }
  assert (Hz : load_all_csv_from_zip z = Ok []) by (apply Hload, H).
  repeat split; [exact Hz | ].
  unfold run, script, bind, lift. now rewrite Hz.
Qed.

Lemma C2_empty_mapping_raises_witness :
  (forall name, In name (namelist [("README.txt", "population data")]) ->
                is_csv name = false) /\
  run default_config [("README.txt", "population data")]
  = ([], Raise IndexError).
Proof.
  assert (H : forall name,
             In name (namelist [("README.txt", "population data")]) ->
             is_csv name = false).
  { intros name [<- | []]. reflexivity. }
  split; [exact H |].
  exact (proj2 (proj2 (C2_empty_mapping_raises default_config
                         [("README.txt", "population data")] [] H))).
Defined.

(** C5. On a non-empty mapping returned by the loader, the selector
    returns the first entry, in insertion order, whose name does not
    contain "Metadata"; when every name contains "Metadata" it returns the
    first entry of the mapping, and raises nothing. *)
Theorem C5_selector_first_non_metadata (z : archive) (ds : Dict.t DataFrame)
    (tr : list event) :
  load_all_csv_from_zip z = Ok ds ->
  ds <> [] ->
  (exists pre k df post,
      ds = pre ++ (k, df) :: post /\
      (forall e, In e pre -> Str.contains "Metadata" (fst e) = true) /\
      Str.contains "Metadata" k = false /\
      select_dataset ds tr = (tr ++ [UsingDataset k], Ok df)) \/
  ((forall e, In e ds -> Str.contains "Metadata" (fst e) = true) /\
   exists k df rest,
      ds = (k, df) :: rest /\
      select_dataset ds tr = (tr ++ [UsingFirstDataset k], Ok df)).
Proof.
  intros Hload Hne.
  destruct (first_non_metadata_split ds)
    as [[pre [k [df [post [Hds [Hpre Hk]]]]]] | Hall].
  - left. exists pre, k, df, post. repeat split; try assumption.
    rewrite Hds. apply select_first_non_metadata; try assumption.
    apply (load_keys_truthy z ds Hload).
    rewrite Hds. unfold Dict.keys. rewrite map_app. apply in_or_app.
    right. now left.
  - right. split; [exact Hall |].
    destruct ds as [| [k df] rest]; [congruence |].
    exists k, df, rest. split; [reflexivity |].
    now apply select_only_metadata.
Qed.

Lemma C5_selector_first_non_metadata_witness :
  exists ds,
    load_all_csv_from_zip sample_archive = Ok ds /\
    ds <> [] /\
    ((exists pre k df post,
         ds = pre ++ (k, df) :: post /\
         (forall e, In e pre -> Str.contains "Metadata" (fst e) = true) /\
         Str.contains "Metadata" k = false /\
         select_dataset ds [] = ([] ++ [UsingDataset k], Ok df)) \/
     ((forall e, In e ds -> Str.contains "Metadata" (fst e) = true) /\
      exists k df rest,
         ds = (k, df) :: rest /\
         select_dataset ds [] = ([] ++ [UsingFirstDataset k], Ok df))).
Proof.
  eexists. split; [vm_compute; reflexivity |].
  split; [discriminate |].
  apply (C5_selector_first_non_metadata sample_archive _ []);
    [vm_compute; reflexivity | discriminate].
Defined.

(** A duplicate in a list bounds the length of any duplicate-free list it
    includes. *)
Lemma nodup_incl_duplicate {A} (l1 l2 l3 l : list A) (b : A) :
  NoDup l -> incl l (l1 ++ b :: l2 ++ b :: l3) ->
  (List.length l < List.length (l1 ++ b :: l2 ++ b :: l3))%nat.
Proof.
  intros Hnd Hincl.
  assert (Hincl' : incl l (l1 ++ l2 ++ b :: l3)).
  { intros x Hx. apply Hincl in Hx.
    rewrite !in_app_iff in *. simpl in *. rewrite !in_app_iff in *. simpl in *.
    intuition. }
  pose proof (NoDup_incl_length Hnd Hincl') as Hlen.
  rewrite !length_app in *. simpl in *. rewrite !length_app in *. simpl in *.
  lia.
Qed.

(** C10. The mapping is keyed by base name: when two CSV entries in
    different places of the archive share a base name, the mapping holds
    exactly one table under it, the one parsed from the later entry, and
    it has fewer keys than the archive has CSV entries. *)
Theorem C10_same_basename_overwrites (z pre mid post : archive)
    (n1 b1 n2 b2 : string) (ds : Dict.t DataFrame) :
  z = pre ++ (n1, b1) :: mid ++ (n2, b2) :: post ->
  is_csv n1 = true ->
  is_csv n2 = true ->
  Str.basename n1 = Str.basename n2 ->
  (forall e, In e post -> is_csv (fst e) = true ->
             Str.basename (fst e) <> Str.basename n2) ->
  load_all_csv_from_zip z = Ok ds ->
  (exists df, parse_entry n2 b2 = Ok df /\
              Dict.get (Str.basename n1) ds = Some df) /\
  NoDup (Dict.keys ds) /\
  (List.length (Dict.keys ds) < List.length (filter is_csv (namelist z)))%nat.
Proof.
  intros Hz H1 H2 Hbase Hpost Hload.
  assert (Hnames : namelist z =
            (map fst pre ++ n1 :: map fst mid) ++ n2 :: map fst post).
  { rewrite Hz. unfold namelist. rewrite map_app. simpl. rewrite map_app.
    simpl. now rewrite <- app_assoc. }
  repeat split.
  - rewrite Hbase.
    apply (load_get_entry z (pre ++ (n1, b1) :: mid) post n2 b2 ds);
      try assumption.
    rewrite Hz. now rewrite <- app_assoc.
  - apply (load_loop_nodup z (namelist z) [] ds); [constructor | exact Hload].
  - assert (Hincl : incl (Dict.keys ds)
                      (map Str.basename (filter is_csv (namelist z)))).
    { intros k Hk. apply (load_loop_keys _ _ _ _ Hload) in Hk.
      destruct Hk as [[] | Hk]. exact Hk. }
    rewrite <- (length_map Str.basename (filter is_csv (namelist z))).
    assert (Hsplit : map Str.basename (filter is_csv (namelist z)) =
              map Str.basename (filter is_csv (map fst pre)) ++
              Str.basename n2 ::
              map Str.basename (filter is_csv (map fst mid)) ++
              Str.basename n2 ::
              map Str.basename (filter is_csv (map fst post))).
    { rewrite Hnames. rewrite !filter_app. cbn [filter]. rewrite H1, H2.
      rewrite !map_app. cbn [map]. rewrite Hbase, <- app_assoc. reflexivity. }
    rewrite Hsplit in *. apply nodup_incl_duplicate; [| exact Hincl].
    apply (load_loop_nodup z (namelist z) [] ds); [constructor | exact Hload].
Qed.

Lemma C10_same_basename_overwrites_witness :
  exists ds,
    load_all_csv_from_zip clashing_archive = Ok ds /\
    (exists df, parse_entry "new/population.csv"
                  (unlines newline
                     ["Data Source,World Development Indicators"; EmptyString;
                      "Last Updated Date,2025-01-01"; EmptyString;
                      "Country Name,Country Code,2020";
                      "C,CCC,7000000"]) = Ok df /\
                Dict.get (Str.basename "old/population.csv") ds = Some df) /\
    NoDup (Dict.keys ds) /\
    (List.length (Dict.keys ds)
     < List.length (filter is_csv (namelist clashing_archive)))%nat.
Proof.
  eexists. split; [vm_compute; reflexivity |].
  apply (C10_same_basename_overwrites clashing_archive
           [] [("notes.txt", "see new/")] []
           "old/population.csv" sample_data "new/population.csv" _).
  - reflexivity.
  - reflexivity.
  - reflexivity.
  - reflexivity.
  - intros e [].
  - vm_compute; reflexivity.
Defined.

(** ** The bucket scheme *)

Lemma label_of_first (v : Q) :
  0 <= v -> v <= 1000000 -> label_of v = Some "< 1M".
Proof. intros H0 H1. unfold_cut. edge_cases; reflexivity. Qed.

Lemma in_bucket_bound (i : nat) (v : Q) : in_bucket i v -> (i < 7)%nat.
Proof.
  unfold in_bucket, bins.
  do 7 (destruct i as [| i]; [lia |]).
  destruct i as [| [| i]]; cbn [nth_error]; intros [].
Qed.

(** [pd.cut] labels a value with the label of the range it lies in. *)
Lemma label_of_bucket (i : nat) (v : Q) :
  in_bucket i v -> label_of v = nth_error labels i.
Proof.
  intros H. pose proof (in_bucket_bound i v H) as Hi.
  unfold in_bucket, bins in H.
  do 7 (destruct i as [| i];
        [ cbn [nth_error above within at_edge] in H;
          destruct H as [[H | [Hz H]] H']; try discriminate Hz;
          unfold_cut; edge_cases; reflexivity
        | ]).
  lia.
Qed.

Lemma bucket_exists (v : Q) : 0 <= v -> exists i, in_bucket i v.
Proof.
  intros H0.
  destruct (Qlt_le_dec 1000000 v) as [H1 | H1].
  2: { exists 0%nat. show_bucket. split; [| exact H1].
       destruct (Qlt_le_dec 0 v) as [Hp | Hp];
         [left; exact Hp | right; split; [reflexivity | lra]]. }
  destruct (Qlt_le_dec 5000000 v) as [H2 | H2];
    [| exists 1%nat; show_bucket; tauto].
  destruct (Qlt_le_dec 10000000 v) as [H3 | H3];
    [| exists 2%nat; show_bucket; tauto].
  destruct (Qlt_le_dec 50000000 v) as [H4 | H4];
    [| exists 3%nat; show_bucket; tauto].
  destruct (Qlt_le_dec 100000000 v) as [H5 | H5];
    [| exists 4%nat; show_bucket; tauto].
  destruct (Qlt_le_dec 500000000 v) as [H6 | H6];
    [| exists 5%nat; show_bucket; tauto].
  exists 6%nat. show_bucket. tauto.
Qed.

Lemma bucket_unique (i j : nat) (v : Q) :
  in_bucket i v -> in_bucket j v -> i = j.
Proof.
  intros Hi Hj.
  pose proof (in_bucket_bound i v Hi) as Bi.
  pose proof (in_bucket_bound j v Hj) as Bj.
  unfold in_bucket, bins in Hi, Hj.
  do 7 (destruct i as [| i];
        [ do 7 (destruct j as [| j];
                [ try reflexivity; exfalso;
                  cbn [nth_error above within at_edge] in Hi, Hj;
                  destruct Hi as [[Hi | [Hi0 Hi]] Hi'];
                  destruct Hj as [[Hj | [Hj0 Hj]] Hj'];
                  try discriminate; try lra
                | ]); lia
        | ]).
  lia.
Qed.

(** A value below the first edge has no category. *)
Lemma label_of_negative (v : Q) : v < 0 -> label_of v = None.
Proof. intros H. unfold_cut. edge_cases; reflexivity. Qed.

(** C4. The seven ranges of the scheme partition the non-negative
    numbers: every [v >= 0] lies in exactly one range, [pd.cut] gives it
    that range's label, and the seven labels are distinct. *)
Theorem C4_bucket_partition (v : Q) :
  0 <= v ->
  NoDup labels /\ List.length labels = 7%nat /\
  exists i l,
    nth_error labels i = Some l /\
    in_bucket i v /\
    (forall j, in_bucket j v -> j = i) /\
    label_of v = Some l /\
    categorical_series (NumSeries [Some v]) = Ok [Some l].
Proof.
  intros H0. split; [| split; [reflexivity |]].
  - unfold labels.
    repeat (constructor; [cbn; intuition discriminate |]). constructor.
  - destruct (bucket_exists v H0) as [i Hi].
    pose proof (in_bucket_bound i v Hi) as Bi.
    destruct (nth_error labels i) as [l |] eqn:El.
    + pose proof (label_of_bucket i v Hi) as Hlabel. rewrite El in Hlabel.
      exists i, l. repeat split; try assumption.
      * intros j Hj. exact (bucket_unique j i v Hj Hi).
      * unfold label_of in Hlabel. cbn [categorical_series dropna cut map].
        now rewrite Hlabel.
    + apply nth_error_None in El. simpl in El. lia.
Qed.

Lemma C4_bucket_partition_witness :
  0 <= 7500000 /\
  exists i l,
    nth_error labels i = Some l /\
    in_bucket i 7500000 /\
    (forall j, in_bucket j 7500000 -> j = i) /\
    label_of 7500000 = Some l /\
    categorical_series (NumSeries [Some 7500000]) = Ok [Some l].
Proof.
  assert (H : 0 <= 7500000) by (unfold Qle; simpl; lia).
  split; [exact H |].
  exact (proj2 (proj2 (C4_bucket_partition 7500000 H))).
Defined.

(** Counterexample to C1 as stated: 1,000,000 is not labelled
    "1M - 5M". *)
Lemma C1_counterexample :
  ~ (label_of 1000000 = Some "1M - 5M" /\ label_of 0 = Some "< 1M").
Proof. intros [H _]. vm_compute in H. discriminate. Qed.

(** C1 (amended). The ranges are closed on the right: 1,000,000 is the
    upper bound of the first range and is labelled "< 1M", the label
    "1M - 5M" starts strictly above it, and 0 is labelled "< 1M". *)
Theorem C1_boundary_labels :
  label_of 1000000 = Some "< 1M" /\
  label_of 0 = Some "< 1M" /\
  label_of 1000001 = Some "1M - 5M" /\
  label_of 5000000 = Some "1M - 5M" /\
  categorical_series (NumSeries [Some 0; Some 1000000; Some 1000001])
  = Ok [Some "< 1M"; Some "< 1M"; Some "1M - 5M"].
Proof. repeat split; vm_compute; reflexivity. Qed.

(** ** Summary statistics *)

Lemma dropna_length {A} (series : list (option A)) :
  List.length (dropna series) = count_non_missing series.
Proof.
  unfold count_non_missing.
  induction series as [| [x |] series IH]; simpl; [reflexivity | now rewrite IH | exact IH].
Qed.

Lemma qmin_le_l (a b : Q) : qmin a b <= a.
Proof.
  unfold qmin. destruct (Qle_bool a b) eqn:E; [apply Qle_refl |].
  apply not_true_iff_false in E. rewrite Qle_bool_iff in E.
  apply Qlt_le_weak, Qnot_le_lt, E.
Qed.

Lemma qmin_le_r (a b : Q) : qmin a b <= b.
Proof.
  unfold qmin. destruct (Qle_bool a b) eqn:E; [| apply Qle_refl].
  now apply Qle_bool_iff.
Qed.

Lemma qmax_ge_l (a b : Q) : a <= qmax a b.
Proof.
  unfold qmax. destruct (Qle_bool a b) eqn:E; [| apply Qle_refl].
  now apply Qle_bool_iff.
Qed.

Lemma qmax_ge_r (a b : Q) : b <= qmax a b.
Proof.
  unfold qmax. destruct (Qle_bool a b) eqn:E; [apply Qle_refl |].
  apply not_true_iff_false in E. rewrite Qle_bool_iff in E.
  apply Qlt_le_weak, Qnot_le_lt, E.
Qed.

Lemma fold_qmin_le_acc (xs : list Q) : forall x, fold_left qmin xs x <= x.
Proof.
  induction xs as [| a xs IH]; intros x; simpl; [apply Qle_refl |].
  eapply Qle_trans; [apply IH | apply qmin_le_l].
Qed.

Lemma fold_qmin_le_in (xs : list Q) :
  forall x y, In y xs -> fold_left qmin xs x <= y.
Proof.
  induction xs as [| a xs IH]; intros x y []; simpl.
  - subst a. eapply Qle_trans; [apply fold_qmin_le_acc | apply qmin_le_r].
  - now apply IH.
Qed.

Lemma fold_qmax_ge_acc (xs : list Q) : forall x, x <= fold_left qmax xs x.
Proof.
  induction xs as [| a xs IH]; intros x; simpl; [apply Qle_refl |].
  eapply Qle_trans; [apply qmax_ge_l | apply IH].
Qed.

Lemma fold_qmax_ge_in (xs : list Q) :
  forall x y, In y xs -> y <= fold_left qmax xs x.
Proof.
  induction xs as [| a xs IH]; intros x y []; simpl.
  - subst a. eapply Qle_trans; [apply qmax_ge_r | apply fold_qmax_ge_acc].
  - now apply IH.
Qed.

(** The minimum is a lower bound and the maximum an upper bound of every
    value. *)
Lemma min_max_bounds (xs : list Q) (mn mx : Q) :
  min xs = Some mn -> max xs = Some mx ->
  forall y, In y xs -> mn <= y /\ y <= mx.
Proof.
  destruct xs as [| x xs]; [discriminate |].
  simpl. intros Hmn Hmx y Hy. injection Hmn as <-. injection Hmx as <-.
  destruct Hy as [<- | Hy].
  - split; [apply fold_qmin_le_acc | apply fold_qmax_ge_acc].
  - split; [now apply fold_qmin_le_in | now apply fold_qmax_ge_in].
Qed.

Lemma insert_sorted_perm (x : Q) (l : list Q) :
  Permutation (insert_sorted x l) (x :: l).
Proof.
  induction l as [| y l IH]; simpl; [apply Permutation_refl |].
  destruct (Qle_bool x y); [apply Permutation_refl |].
  eapply Permutation_trans; [apply perm_skip, IH | apply perm_swap].
Qed.

Lemma sort_perm (xs : list Q) : Permutation (sort xs) xs.
Proof.
  induction xs as [| x xs IH]; simpl; [constructor |].
  eapply Permutation_trans; [apply insert_sorted_perm | now apply perm_skip].
Qed.

Lemma sort_nth_in (xs : list Q) (k : nat) :
  (k < List.length xs)%nat -> In (nth k (sort xs) 0) xs.
Proof.
  intros Hk. apply (Permutation_in _ (sort_perm xs)).
  apply nth_In. now rewrite (Permutation_length (sort_perm xs)).
Qed.

(** [sort] does sort. *)
Lemma insert_sorted_sorted (x : Q) (l : list Q) :
  StronglySorted Qle l -> StronglySorted Qle (insert_sorted x l).
Proof.
  induction 1 as [| y l Hl IH Hy]; simpl.
  - repeat constructor.
  - destruct (Qle_bool x y) eqn:E.
    + apply Qle_bool_iff in E. constructor; [now constructor |].
      constructor; [exact E |].
      rewrite Forall_forall in *. intros z Hz. eapply Qle_trans; eauto.
    + apply not_true_iff_false in E. rewrite Qle_bool_iff in E.
      apply Qnot_le_lt, Qlt_le_weak in E.
      constructor; [exact IH |].
      rewrite Forall_forall in *. intros z Hz.
      apply (Permutation_in _ (insert_sorted_perm x l)) in Hz.
      destruct Hz as [<- | Hz]; [exact E | now apply Hy].
Qed.

Lemma sort_sorted (xs : list Q) : StronglySorted Qle (sort xs).
Proof.
  induction xs as [| x xs IH]; simpl; [constructor | now apply insert_sorted_sorted].
Qed.

Lemma dropna_in {A} (series : list (option A)) (v : A) :
  In v (dropna series) <-> In (Some v) series.
Proof.
  induction series as [| [x |] series IH]; simpl.
  - tauto.
  - rewrite IH. split; intros [H | H]; auto; left; congruence.
  - rewrite IH. split; [auto | intros [H | H]; [discriminate | exact H]].
Qed.



(** *** Powers of two *)

Lemma pow2_pos (e : Z) : 0 < pow2 e.
Proof. apply Qpower_0_lt. reflexivity. Qed.

Lemma pow2_add (a b : Z) : pow2 (a + b) == pow2 a * pow2 b.
Proof. apply Qpower_plus. discriminate. Qed.

Lemma pow2_le (a b : Z) : (a <= b)%Z -> pow2 a <= pow2 b.
Proof. intros H. apply Qpower_le_compat_l; [exact H | discriminate]. Qed.

Lemma pow2_inv (a : Z) : pow2 a * pow2 (- a) == 1.
Proof.
  rewrite <- pow2_add. now replace (a + - a)%Z with 0%Z by lia.
Qed.

Lemma pow2_Z (e : Z) : (0 <= e)%Z -> pow2 e == inject_Z (2 ^ e).
Proof. intros H. unfold pow2. now rewrite Zpower_Qpower. Qed.

Lemma pow2_succ (a : Z) : pow2 (a + 1) == 2 * pow2 a.
Proof. rewrite pow2_add. change (pow2 1) with 2. ring. Qed.

(** *** Rounding to the nearest integer *)

Lemma rne_cases (q : Q) :
  let f := Qfloor q in
  (rne q = f /\ q - inject_Z f <= 1 # 2) \/
  (rne q = (f + 1)%Z /\ 1 # 2 <= q - inject_Z f).
Proof.
  intros f. unfold rne. fold f.
  destruct (Qcompare (q - inject_Z f) (1 # 2)) eqn:E.
  - apply Qeq_alt in E. destruct (Z.even f); [left | right]; split; auto; rewrite E; apply Qle_refl.
  - apply Qlt_alt in E. left; split; auto. now apply Qlt_le_weak.
  - apply Qgt_alt in E. right; split; auto. now apply Qlt_le_weak.
Qed.

Lemma rne_le (x y : Q) : x <= y -> (rne x <= rne y)%Z.
Proof.
  intros Hxy.
  pose proof (Qfloor_resp_le _ _ Hxy) as Hf.
  destruct (Z.eq_dec (Qfloor x) (Qfloor y)) as [E | NE].
  - unfold rne. rewrite E.
    assert (Hx := Qcompare_spec (x - inject_Z (Qfloor y)) (1 # 2)).
    assert (Hy := Qcompare_spec (y - inject_Z (Qfloor y)) (1 # 2)).
    destruct Hx as [Hx | Hx | Hx]; destruct Hy as [Hy | Hy | Hy];
      try (destruct (Z.even (Qfloor y))); try lia; exfalso; lra.
  - assert (Qfloor x + 1 <= Qfloor y)%Z by lia.
    destruct (rne_cases x) as [[-> _] | [-> _]];
    destruct (rne_cases y) as [[-> _] | [-> _]]; lia.
Qed.

Lemma rne_Z (m : Z) : rne (inject_Z m) = m.
Proof.
  unfold rne. rewrite Qfloor_Z.
  destruct (Qcompare (inject_Z m - inject_Z m) (1 # 2)) eqn:E; auto.
  - apply Qeq_alt in E. exfalso. lra.
  - apply Qgt_alt in E. exfalso. lra.
Qed.

Lemma rne_comp (x y : Q) : x == y -> rne x = rne y.
Proof.
  intros H. apply Z.le_antisymm; apply rne_le; rewrite H; apply Qle_refl.
Qed.

(** *** Rounding to the multiples of a power of two *)

Lemma round_at_le (c : Z) (x y : Q) : x <= y -> round_at c x <= round_at c y.
Proof.
  intros H. unfold round_at.
  apply Qmult_le_compat_r; [| apply Qlt_le_weak, pow2_pos].
  rewrite <- Zle_Qle. apply rne_le.
  apply Qmult_le_compat_r; [exact H | apply Qlt_le_weak, pow2_pos].
Qed.

Lemma round_at_grid (c : Z) (q : Q) : on_grid c q -> round_at c q == q.
Proof.
  intros [m Hm]. unfold round_at.
  rewrite (rne_comp (q * pow2 (- c)) (inject_Z m)).
  - rewrite rne_Z. now rewrite Hm.
  - rewrite Hm. rewrite <- Qmult_assoc, pow2_inv. ring.
Qed.

Lemma on_grid_finer (c c' : Z) (q : Q) : (c' <= c)%Z -> on_grid c q -> on_grid c' q.
Proof.
  intros Hc [m Hm]. exists (m * 2 ^ (c - c'))%Z.
  rewrite Hm, inject_Z_mult, <- pow2_Z by lia.
  rewrite <- Qmult_assoc, <- pow2_add.
  now replace (c - c' + c')%Z with c by lia.
Qed.

Lemma on_grid_pow2 (c e : Z) : (c <= e)%Z -> on_grid c (pow2 e).
Proof.
  intros H. apply (on_grid_finer e); [exact H |]. exists 1%Z. ring.
Qed.

Lemma on_grid_opp (c : Z) (q : Q) : on_grid c q -> on_grid c (- q).
Proof.
  intros [m Hm]. exists (- m)%Z. rewrite Hm, inject_Z_opp. ring.
Qed.

(** *** The binary exponent *)

Lemma ilog2_spec (q : Q) :
  ~ q == 0 -> pow2 (ilog2 q) <= Qabs q /\ Qabs q < pow2 (ilog2 q + 1).
Proof.
  intros Hq. destruct q as [n d].
  assert (Hn : (0 < Z.abs n)%Z).
  { assert (n <> 0%Z); [| lia]. intros ->. apply Hq. reflexivity. }
  unfold ilog2. cbn [Qnum Qden].
  set (ln := Z.log2 (Z.abs n)). set (ld := Z.log2 (Z.pos d)).
  destruct (Z.log2_spec (Z.abs n) Hn) as [Hn1 Hn2]. fold ln in Hn1, Hn2.
  destruct (Z.log2_spec (Z.pos d) eq_refl) as [Hd1 Hd2]. fold ld in Hd1, Hd2.
  assert (Hln : (0 <= ln)%Z) by apply Z.log2_nonneg.
  assert (Hld : (0 <= ld)%Z) by apply Z.log2_nonneg.
  assert (Habs : Qabs (n # d) == inject_Z (Z.abs n) / inject_Z (Z.pos d)).
  { unfold Qabs. rewrite (Qmake_Qdiv (Z.abs n) d). reflexivity. }
  assert (Hdpos : 0 < inject_Z (Z.pos d)) by (rewrite <- (Zlt_Qlt 0); lia).
  assert (Hlo : pow2 (ln - ld - 1) <= Qabs (n # d)).
  { rewrite Habs. apply Qle_shift_div_l; [exact Hdpos |].
    apply Qle_trans with (pow2 (ln - ld - 1) * pow2 (ld + 1)).
    - apply Qmult_le_l; [apply pow2_pos |].
      rewrite pow2_Z by lia. rewrite <- Zle_Qle. lia.
    - rewrite <- pow2_add. replace (ln - ld - 1 + (ld + 1))%Z with ln by lia.
      rewrite pow2_Z by lia. rewrite <- Zle_Qle. lia. }
  assert (Hhi : Qabs (n # d) < pow2 (ln - ld + 1)).
  { rewrite Habs. apply Qlt_shift_div_r; [exact Hdpos |].
    apply Qlt_le_trans with (pow2 (ln + 1)).
    - rewrite pow2_Z by lia. rewrite <- Zlt_Qlt. lia.
    - replace (ln + 1)%Z with (ln - ld + 1 + ld)%Z by lia. rewrite pow2_add.
      apply Qmult_le_l; [apply pow2_pos |].
      rewrite pow2_Z by lia. rewrite <- Zle_Qle. lia. }
  destruct (Qle_bool (pow2 (ln - ld)) (Qabs (n # d))) eqn:E.
  - apply Qle_bool_iff in E. split; assumption.
  - split; [exact Hlo |].
    replace (ln - ld - 1 + 1)%Z with (ln - ld)%Z by lia.
    apply Qnot_le_lt. intros H. apply Qle_bool_iff in H. congruence.
Qed.

Lemma ilog2_unique (q : Q) (e : Z) :
  pow2 e <= Qabs q -> Qabs q < pow2 (e + 1) -> ilog2 q = e.
Proof.
  intros H1 H2.
  assert (Hq : ~ q == 0).
  { intros H. rewrite H in H1. pose proof (pow2_pos e). change (Qabs 0) with 0 in H1. lra. }
  destruct (ilog2_spec q Hq) as [H3 H4].
  destruct (Z.lt_trichotomy (ilog2 q) e) as [L | [E | G]]; [| exact E |]; exfalso.
  - assert (pow2 (ilog2 q + 1) <= pow2 e) by (apply pow2_le; lia). lra.
  - assert (pow2 (e + 1) <= pow2 (ilog2 q)) by (apply pow2_le; lia). lra.
Qed.

Lemma ilog2_le (x y : Q) :
  ~ x == 0 -> Qabs x <= Qabs y -> (ilog2 x <= ilog2 y)%Z.
Proof.
  intros Hx Hxy.
  assert (Hy : ~ y == 0).
  { intros H. rewrite H in Hxy. change (Qabs 0) with 0 in Hxy.
    apply Hx. pose proof (Qle_Qabs x) as Ha. pose proof (Qle_Qabs (- x)) as Hb.
    rewrite Qabs_opp in Hb. lra. }
  destruct (ilog2_spec x Hx) as [H1 H2]. destruct (ilog2_spec y Hy) as [H3 H4].
  destruct (Z_le_gt_dec (ilog2 x) (ilog2 y)) as [L | G]; [exact L | exfalso].
  assert (pow2 (ilog2 y + 1) <= pow2 (ilog2 x)) by (apply pow2_le; lia). lra.
Qed.

Lemma cexp_le (x y : Q) :
  ~ x == 0 -> Qabs x <= Qabs y -> (cexp x <= cexp y)%Z.
Proof. intros Hx H. unfold cexp. pose proof (ilog2_le x y Hx H). lia. Qed.

(** *** Rounding to binary64 *)

Lemma round64_round_at (q : Q) : round64 q == round_at (cexp q) q.
Proof. unfold round64. apply Qred_correct. Qed.

Lemma round64_0 (q : Q) : q == 0 -> round64 q == 0.
Proof.
  intros H. rewrite round64_round_at. unfold round_at.
  rewrite (rne_comp _ (inject_Z 0)); [rewrite rne_Z; ring |].
  generalize (pow2 (- cexp q)). intros p. rewrite H. ring.
Qed.

Lemma round64_pos_le (x y : Q) : 0 < x -> x <= y -> round64 x <= round64 y.
Proof.
  intros Hx Hxy. rewrite !round64_round_at.
  assert (Hx0 : ~ x == 0) by lra. assert (Hy0 : ~ y == 0) by lra.
  assert (Hax : Qabs x == x) by (apply Qabs_pos; lra).
  assert (Hay : Qabs y == y) by (apply Qabs_pos; lra).
  assert (Hc : (cexp x <= cexp y)%Z) by (apply cexp_le; [exact Hx0 | lra]).
  destruct (Z.eq_dec (cexp x) (cexp y)) as [E | NE].
  - rewrite E. now apply round_at_le.
  - destruct (ilog2_spec x Hx0) as [_ Hx2]. destruct (ilog2_spec y Hy0) as [Hy1 _].
    assert (He : (ilog2 x < ilog2 y)%Z) by (unfold cexp in *; lia).
    assert (Hcy : (cexp y <= ilog2 y)%Z) by (unfold cexp in *; lia).
    set (p := pow2 (ilog2 y)).
    assert (Hxp : x <= p).
    { apply Qle_trans with (pow2 (ilog2 x + 1)); [lra | apply pow2_le; lia]. }
    apply Qle_trans with p.
    + rewrite <- (round_at_grid (cexp x) p) by (apply on_grid_pow2; lia).
      now apply round_at_le.
    + rewrite <- (round_at_grid (cexp y) p) at 1 by (apply on_grid_pow2; lia).
      apply round_at_le. subst p. lra.
Qed.

Lemma round64_neg_le (x y : Q) : y < 0 -> x <= y -> round64 x <= round64 y.
Proof.
  intros Hy Hxy. rewrite !round64_round_at.
  assert (Hx0 : ~ x == 0) by lra. assert (Hy0 : ~ y == 0) by lra.
  assert (Hax : Qabs x == - x) by (apply Qabs_neg; lra).
  assert (Hay : Qabs y == - y) by (apply Qabs_neg; lra).
  assert (Hc : (cexp y <= cexp x)%Z) by (apply cexp_le; [exact Hy0 | lra]).
  destruct (Z.eq_dec (cexp x) (cexp y)) as [E | NE].
  - rewrite E. now apply round_at_le.
  - destruct (ilog2_spec x Hx0) as [Hx1 _]. destruct (ilog2_spec y Hy0) as [_ Hy2].
    assert (He : (ilog2 y < ilog2 x)%Z) by (unfold cexp in *; lia).
    assert (Hcx : (cexp x <= ilog2 x)%Z) by (unfold cexp in *; lia).
    set (p := - pow2 (ilog2 x)).
    assert (Hpy : p <= y).
    { assert (pow2 (ilog2 y + 1) <= pow2 (ilog2 x)) by (apply pow2_le; lia).
      subst p. lra. }
    apply Qle_trans with p.
    + rewrite <- (round_at_grid (cexp x) p) by (apply on_grid_opp, on_grid_pow2; lia).
      apply round_at_le. subst p. lra.
    + rewrite <- (round_at_grid (cexp y) p) at 1 by (apply on_grid_opp, on_grid_pow2; lia).
      now apply round_at_le.
Qed.

Lemma round_at_0 (c : Z) : round_at c 0 == 0.
Proof. apply round_at_grid. exists 0%Z. ring. Qed.

Lemma round64_nonneg (x : Q) : 0 <= x -> 0 <= round64 x.
Proof.
  intros H. rewrite round64_round_at, <- (round_at_0 (cexp x)). now apply round_at_le.
Qed.

Lemma round64_nonpos (x : Q) : x <= 0 -> round64 x <= 0.
Proof.
  intros H. rewrite round64_round_at, <- (round_at_0 (cexp x)). now apply round_at_le.
Qed.

(** Rounding is monotone. *)
Lemma round64_le (x y : Q) : x <= y -> round64 x <= round64 y.
Proof.
  intros H. destruct (Qlt_le_dec 0 x) as [Hx | Hx].
  - now apply round64_pos_le.
  - destruct (Qlt_le_dec y 0) as [Hy | Hy].
    + now apply round64_neg_le.
    + apply Qle_trans with 0; [now apply round64_nonpos | now apply round64_nonneg].
Qed.

#[global] Instance round64_proper : Proper (Qeq ==> Qeq) round64.
Proof.
  intros x y H. apply Qle_antisym; apply round64_le; rewrite H; apply Qle_refl.
Qed.

(** *** Binary64 values *)

Lemma representable_on_grid (q : Q) : representable q -> on_grid (cexp q) q.
Proof.
  intros H. unfold representable in H. rewrite round64_round_at in H.
  exists (rne (q * pow2 (- cexp q))). symmetry. exact H.
Qed.

Lemma on_grid_representable (q : Q) : on_grid (cexp q) q -> representable q.
Proof. intros H. unfold representable. rewrite round64_round_at. now apply round_at_grid. Qed.

Lemma ilog2_double (q : Q) : ~ q == 0 -> ilog2 (2 * q) = (ilog2 q + 1)%Z.
Proof.
  intros Hq. destruct (ilog2_spec q Hq) as [H1 H2].
  assert (Ha : Qabs (2 * q) == 2 * Qabs q).
  { rewrite Qabs_Qmult. reflexivity. }
  apply ilog2_unique; rewrite Ha, !pow2_succ in *; lra.
Qed.

(** The double of a binary64 value is a binary64 value. *)
Lemma representable_double (q : Q) : representable q -> representable (2 * q).
Proof.
  intros H. destruct (Qeq_dec q 0) as [E | NE].
  - unfold representable. rewrite round64_0; [| rewrite E; ring]. rewrite E. ring.
  - apply on_grid_representable.
    apply (on_grid_finer (cexp q + 1)).
    + unfold cexp. rewrite ilog2_double by exact NE. lia.
    + destruct (representable_on_grid q H) as [m Hm]. exists m.
      rewrite pow2_succ. rewrite Hm at 1. ring.
Qed.

(** Rounding keeps a value between two binary64 values. *)
Lemma round64_between (lo hi q : Q) :
  representable lo -> representable hi -> lo <= q -> q <= hi ->
  lo <= round64 q /\ round64 q <= hi.
Proof.
  intros Hlo Hhi H1 H2. unfold representable in Hlo, Hhi. split.
  - rewrite <- Hlo. now apply round64_le.
  - rewrite <- Hhi. now apply round64_le.
Qed.

Lemma max_float_pos : 0 < max_float.
Proof. reflexivity. Qed.

Lemma finite_some (q : Q) : Qabs q <= max_float -> finite q = Some q.
Proof.
  intros H. unfold finite. apply Qle_bool_iff in H. now rewrite H.
Qed.

Lemma Qabs_between (lo hi q bound : Q) :
  lo <= q -> q <= hi -> Qabs lo <= bound -> Qabs hi <= bound ->
  Qabs q <= bound.
Proof.
  intros H1 H2 Hlo Hhi.
  apply Qabs_Qle_condition in Hlo. apply Qabs_Qle_condition in Hhi.
  apply Qabs_Qle_condition. split; lra.
Qed.

Lemma half_range (q : Q) : Qabs q <= max_float / 2 -> 2 * Qabs q <= max_float.
Proof.
  intros H. apply (Qmult_le_compat_r _ _ 2) in H; [| discriminate].
  setoid_replace (max_float / 2 * 2) with max_float in H by field. lra.
Qed.

Lemma Qabs_double (q : Q) : Qabs (2 * q) == 2 * Qabs q.
Proof. now rewrite Qabs_Qmult. Qed.

(** The minimum and the maximum are values of the series. *)
Lemma fold_qmin_in (xs : list Q) :
  forall x, fold_left qmin xs x = x \/ In (fold_left qmin xs x) xs.
Proof.
  induction xs as [| a xs IH]; intros x; simpl; [now left |].
  destruct (IH (qmin x a)) as [H | H]; [| now right; right].
  rewrite H. unfold qmin. destruct (Qle_bool x a); [now left | now right; left].
Qed.

Lemma fold_qmax_in (xs : list Q) :
  forall x, fold_left qmax xs x = x \/ In (fold_left qmax xs x) xs.
Proof.
  induction xs as [| a xs IH]; intros x; simpl; [now left |].
  destruct (IH (qmax x a)) as [H | H]; [| now right; right].
  rewrite H. unfold qmax. destruct (Qle_bool x a); [now right; left | now left].
Qed.

Lemma min_in (xs : list Q) (mn : Q) : min xs = Some mn -> In mn xs.
Proof.
  destruct xs as [| x xs]; [discriminate |]. simpl. intros H.
  injection H as <-. destruct (fold_qmin_in xs x) as [-> | H]; [now left | now right].
Qed.

Lemma max_in (xs : list Q) (mx : Q) : max xs = Some mx -> In mx xs.
Proof.
  destruct xs as [| x xs]; [discriminate |]. simpl. intros H.
  injection H as <-. destruct (fold_qmax_in xs x) as [-> | H]; [now left | now right].
Qed.

(** A value of the sorted, converted series is a value of the series. *)
Lemma sorted_nth_value (xs : list Q) (k : nat) :
  (forall v, In v xs -> representable v) ->
  (k < List.length xs)%nat ->
  exists v, In v xs /\ nth k (sort (map round64 xs)) 0 == v.
Proof.
  intros Hrep Hk.
  assert (Hin : In (nth k (sort (map round64 xs)) 0) (map round64 xs)).
  { apply sort_nth_in. now rewrite length_map. }
  apply in_map_iff in Hin. destruct Hin as [v [Hv Hin]].
  exists v. split; [exact Hin |]. rewrite <- Hv. now apply Hrep.
Qed.

(** The median of binary64 values of at most half the largest magnitude
    is a number between the minimum and the maximum. *)
Lemma median_bounds (xs : list Q) (mn mx : Q) :
  min xs = Some mn -> max xs = Some mx ->
  (forall v, In v xs -> representable v /\ Qabs v <= max_float / 2) ->
  exists md, median xs = Some md /\ mn <= md /\ md <= mx.
Proof.
  intros Hmn Hmx Hval.
  pose proof (min_max_bounds xs mn mx Hmn Hmx) as Hb.
  pose proof max_float_pos as Hpos.
  destruct (Hval _ (min_in _ _ Hmn)) as [Rmn Mmn]. apply half_range in Mmn.
  destruct (Hval _ (max_in _ _ Hmx)) as [Rmx Mmx]. apply half_range in Mmx.
  pose proof (Qabs_nonneg mn) as Nmn. pose proof (Qabs_nonneg mx) as Nmx.
  set (n := List.length xs).
  assert (Hn : (0 < n)%nat).
  { subst n. destruct xs; [discriminate | simpl; lia]. }
  assert (Hhalf : (n / 2 < n)%nat) by (apply Nat.div_lt; lia).
  assert (Hprev : (n / 2 - 1 < n)%nat) by lia.
  destruct (sorted_nth_value xs (n / 2) (fun v Hv => proj1 (Hval v Hv)) Hhalf)
    as [vb [Hvb Eb]].
  destruct (sorted_nth_value xs (n / 2 - 1) (fun v Hv => proj1 (Hval v Hv)) Hprev)
    as [va [Hva Ea]].
  destruct (Hb _ Hvb) as [Lb Ub]. destruct (Hb _ Hva) as [La Ua].
  unfold median. fold n. destruct xs as [| x xs]; [discriminate |].
  set (sorted := sort (map round64 (x :: xs))) in *.
  set (a := nth (n / 2 - 1) sorted 0) in *. set (b := nth (n / 2) sorted 0) in *.
  destruct (Nat.odd n).
  - exists b. split; [| split; rewrite Eb; assumption].
    apply finite_some. rewrite Eb.
    apply (Qabs_between mn mx); [assumption | assumption | lra | lra].
  - assert (R2mn : representable (2 * mn)) by now apply representable_double.
    assert (R2mx : representable (2 * mx)) by now apply representable_double.
    destruct (round64_between (2 * mn) (2 * mx) (a + b) R2mn R2mx)
      as [Ls Us]; [rewrite Ea, Eb; lra | rewrite Ea, Eb; lra |].
    set (total := round64 (a + b)) in *.
    destruct (round64_between mn mx (total / 2) Rmn Rmx) as [Lm Um].
    { apply Qle_shift_div_l; [reflexivity | lra]. }
    { apply Qle_shift_div_r; [reflexivity | lra]. }
    exists (round64 (total / 2)). split; [| split; assumption].
    unfold add64. fold total. rewrite (finite_some total).
    + cbn [obind]. unfold div64. apply finite_some.
      apply (Qabs_between mn mx); [assumption | assumption | lra | lra].
    + apply (Qabs_between (2 * mn) (2 * mx)); [assumption | assumption | |];
        rewrite Qabs_double; lra.
Qed.

(** The model of binary64 agrees with the primitive floats: on a sum
    and a quotient that are rounded, on a product, on a difference of
    negative numbers, on a tie among the subnormal numbers, and on an
    overflow. *)
Lemma binary64_on_primitive_floats :
  let tenth := primitive_float false 7205759403792794 (-56) in
  let fifth := primitive_float false 7205759403792794 (-55) in
  let tiny := primitive_float false 1 (-1074) in
  let huge := primitive_float false 9007199254740991 971 in
  float_value tenth = Some (3602879701896397 # 36028797018963968) /\
  float_value fifth = Some (3602879701896397 # 18014398509481984) /\
  float_value (PrimFloat.add tenth fifth)
  = add64 (3602879701896397 # 36028797018963968)
          (3602879701896397 # 18014398509481984) /\
  float_value (PrimFloat.div (primitive_float false 1 0)
                             (primitive_float false 3 0))
  = div64 1 3 /\
  float_value (PrimFloat.mul float_782_015 tenth)
  = mul64 cell_782_015 (3602879701896397 # 36028797018963968) /\
  float_value (PrimFloat.sub (primitive_float true 1 0) tenth)
  = sub64 (-1) (3602879701896397 # 36028797018963968) /\
  float_value (PrimFloat.mul tiny (primitive_float false 3 (-1)))
  = mul64 (pow2 (-1074)) (3 # 2) /\
  float_value huge = Some max_float /\
  float_value (PrimFloat.add huge huge) = add64 max_float max_float /\
  add64 max_float max_float = None.
Proof. repeat split; vm_compute; reflexivity. Qed.

(** The two agree on the sum of seven cells [782.015] and on its
    division by seven. *)
Lemma sevenfold_mean_on_primitive_floats :
  let seven := FloatOps.SF2Prim (SpecFloat.S754_finite false 7 0) in
  float_value float_782_015 = Some cell_782_015 /\
  float_value (fold_left PrimFloat.add (repeat float_782_015 7) PrimFloat.zero)
  = sum64 (repeat cell_782_015 7) /\
  float_value (PrimFloat.div
                 (fold_left PrimFloat.add (repeat float_782_015 7) PrimFloat.zero)
                 seven)
  = mean (repeat cell_782_015 7).
Proof. repeat split; vm_compute; reflexivity. Qed.

(** Counterexample to C6 as stated.  Seven cells [782.015]: every value
    is the same binary64 number, printed as 782.01, yet the reported
    mean is the next binary64 number above it, printed as 782.02: the
    mean exceeds the maximum. *)
Lemma C6_counterexample :
  let series := repeat (Some cell_782_015) 7 in
  let s := describe (dropna series) in
  let mean_782 := 6878676684761990 # 8796093022208 in
  representable cell_782_015 /\
  visualize_continuous series "2020" []
  = ([Histogram "2020" (dropna series); ContinuousSummary "2020" s], Ok tt) /\
  s_count s = 7%nat /\
  s_min s = Some cell_782_015 /\
  s_max s = Some cell_782_015 /\
  s_median s = Some cell_782_015 /\
  (exists me, s_mean s = Some me /\ me == mean_782) /\
  cell_782_015 < mean_782 /\
  two_decimals cell_782_015 = 78201%Z /\
  two_decimals mean_782 = 78202%Z.
Proof.
  intros series s mean_782. repeat split; try (vm_compute; reflexivity).
  eexists. split; vm_compute; reflexivity.
Qed.

(** C6 (amended). When [visualize_continuous] returns, it has plotted
    and reported on the series without its missing values, and the
    reported count is the number of non-missing input values.  When that
    count is positive
    and every value is a binary64 number of at most half the largest
    finite magnitude, the reported minimum and maximum are values of the
    series and the reported median is a number between them:
    [min <= median <= max].  (No bound is claimed for the mean.) *)
Theorem C6_count_and_median_bounds (series : list (option Q))
    (column_name : string) (tr tr' : list event) :
  visualize_continuous series column_name tr = (tr', Ok tt) ->
  let s := describe (dropna series) in
  tr' = tr ++ [Histogram column_name (dropna series);
               ContinuousSummary column_name s] /\
  s_count s = count_non_missing series /\
  ((0 < s_count s)%nat ->
   (forall v, In (Some v) series ->
              representable v /\ Qabs v <= max_float / 2) ->
   exists mn md mx,
     s_min s = Some mn /\ s_median s = Some md /\ s_max s = Some mx /\
     In (Some mn) series /\ In (Some mx) series /\
     mn <= md /\ md <= mx).
Proof.
  intros Hrun s. split; [| split].
  - unfold visualize_continuous, bind, emit in Hrun.
    rewrite <- app_assoc in Hrun. now injection Hrun as <-.
  - apply dropna_length.
  - subst s. cbn [describe s_count s_min s_median s_max].
    intros Hpos Hval.
    destruct (min (dropna series)) as [mn |] eqn:Hmn;
      [| destruct (dropna series); [simpl in Hpos; lia | discriminate]].
    destruct (max (dropna series)) as [mx |] eqn:Hmx;
      [| destruct (dropna series); discriminate].
    destruct (median_bounds (dropna series) mn mx Hmn Hmx) as [md [Hmd [H1 H2]]].
    { intros v Hv. apply Hval. now apply dropna_in. }
    exists mn, md, mx. repeat split; try assumption.
    + apply dropna_in. now apply min_in.
    + apply dropna_in. now apply max_in.
Qed.

Lemma C6_count_and_median_bounds_witness :
  let series := [Some 3; None; Some 1; Some 10; None; Some 2] in
  let s := describe (dropna series) in
  s_count s = 4%nat /\
  s_median s = Some (5 # 2) /\
  exists mn md mx,
    s_min s = Some mn /\ s_median s = Some md /\ s_max s = Some mx /\
    In (Some mn) series /\ In (Some mx) series /\
    mn <= md /\ md <= mx.
Proof.
  intros series s. split; [reflexivity |]. split; [vm_compute; reflexivity |].
  refine (proj2 (proj2 (C6_count_and_median_bounds series "2020" []
                          (fst (visualize_continuous series "2020" []))
                          eq_refl)) _ _).
  - vm_compute. lia.
  - intros v Hv. simpl in Hv.
    destruct Hv as [Hv | [Hv | [Hv | [Hv | [Hv | [Hv | []]]]]]];
      try discriminate; injection Hv as <-;
      (split; [vm_compute; reflexivity | apply Qle_bool_iff; vm_compute; reflexivity]).
Defined.

(** ** Reading CSV text *)

Lemma lines_from_line (eol l rest : string) :
  eol_ok eol -> no_eol l = true ->
  lines_from false (l ++ eol ++ rest) = l :: lines_from false rest.
Proof.
  intros Heol. induction l as [| c l IH]; intros Hl.
  - destruct Heol as [-> | ->]; reflexivity.
  - cbn [no_eol] in Hl. apply andb_true_iff in Hl as [Hc Hl].
    apply andb_true_iff in Hc as [Hlf Hcr].
    apply negb_true_iff in Hlf, Hcr.
    cbn [String.append lines_from]. rewrite Hlf, Hcr, (IH Hl). reflexivity.
Qed.

(** Splitting a text into lines undoes joining them. *)
Lemma lines_unlines (eol : string) (ls : list string) :
  eol_ok eol -> forallb no_eol ls = true -> lines (unlines eol ls) = ls.
Proof.
  intros Heol. unfold lines. induction ls as [| l ls IH]; intros H; [reflexivity |].
  cbn [forallb] in H. apply andb_true_iff in H as [Hl Hls].
  cbn [unlines]. rewrite (lines_from_line eol l _ Heol Hl), (IH Hls). reflexivity.
Qed.

Lemma decode_bom (text : string) : decode_utf8_sig (BOM ++ text) = text.
Proof. reflexivity. Qed.


(** Decoding touches at most the first line, and leaves it a line. *)
Lemma decode_first_line (eol l rest : string) :
  eol_ok eol -> no_eol l = true ->
  exists l', no_eol l' = true /\
             decode_utf8_sig (l ++ eol ++ rest) = (l' ++ eol ++ rest)%string.
Proof.
  intros Heol Hl.
  destruct l as [| a [| b [| c l]]].
  - exists EmptyString. split; [reflexivity |].
    destruct Heol as [-> | ->]; destruct rest as [| x [| y rest]]; reflexivity.
  - exists (String a EmptyString). split; [exact Hl |].
    destruct Heol as [-> | ->]; destruct rest as [| x rest];
      cbn [String.append decode_utf8_sig newline CRLF];
      try reflexivity;
      destruct (Ascii.eqb a (ascii_of_nat 239)); reflexivity.
  - exists (String a (String b EmptyString)). split; [exact Hl |].
    destruct Heol as [-> | ->];
      cbn [String.append decode_utf8_sig newline CRLF];
      destruct (Ascii.eqb a (ascii_of_nat 239));
      destruct (Ascii.eqb b (ascii_of_nat 187)); reflexivity.
  - cbn [String.append decode_utf8_sig].
    destruct (Ascii.eqb a (ascii_of_nat 239) && Ascii.eqb b (ascii_of_nat 187)
              && Ascii.eqb c (ascii_of_nat 191)).
    + exists l. split; [| reflexivity].
      cbn [no_eol] in Hl. repeat (apply andb_true_iff in Hl as [_ Hl]). exact Hl.
    + exists (String a (String b (String c l))). split; [exact Hl | reflexivity].
Qed.

Lemma read_csv_text_lines (eol header : string) (lead rows : list string) :
  eol_ok eol ->
  forallb no_eol (lead ++ header :: rows) = true ->
  blank header = false ->
  read_csv_text (List.length lead) (unlines eol (lead ++ header :: rows))
  = table_of_lines header rows.
Proof.
  intros Heol Hclean Hhdr. unfold read_csv_text, table_of_lines.
  rewrite (lines_unlines eol _ Heol Hclean).
  rewrite skipn_app, skipn_all, Nat.sub_diag. cbn [app skipn filter].
  rewrite Hhdr. reflexivity.
Qed.


Lemma parse_entry_data (file eol bom b1 b2 b3 b4 header : string)
    (rows : list string) :
  Str.contains "Metadata" file = false ->
  eol_ok eol ->
  bom = EmptyString \/ bom = BOM ->
  forallb no_eol (b1 :: b2 :: b3 :: b4 :: header :: rows) = true ->
  blank header = false ->
  parse_entry file (bom ++ unlines eol (b1 :: b2 :: b3 :: b4 :: header :: rows))
  = table_of_lines header rows.
Proof.
  intros Hdata Heol Hbom Hclean Hhdr. unfold parse_entry, read_csv.
  rewrite Hdata.
  destruct Hbom as [-> | ->].
  - change (EmptyString
            ++ unlines eol (b1 :: b2 :: b3 :: b4 :: header :: rows))%string
      with (b1 ++ eol ++ unlines eol (b2 :: b3 :: b4 :: header :: rows))%string.
    cbn [forallb] in Hclean. apply andb_true_iff in Hclean as [H1 Hrest].
    destruct (decode_first_line eol b1
                (unlines eol (b2 :: b3 :: b4 :: header :: rows)) Heol H1)
      as [b1' [H1' ->]].
    apply (read_csv_text_lines eol header [b1'; b2; b3; b4] rows Heol);
      [| exact Hhdr].
    cbn [app forallb]. now rewrite H1'.
  - rewrite decode_bom.
    exact (read_csv_text_lines eol header [b1; b2; b3; b4] rows Heol Hclean Hhdr).
Qed.


Lemma lower_append (s t : string) :
  Str.lower (s ++ t) = (Str.lower s ++ Str.lower t)%string.
Proof. induction s as [| c s IH]; simpl; [reflexivity | now rewrite IH]. Qed.

Lemma endswith_append (suf pre s : string) :
  Str.endswith suf s = true -> Str.endswith suf (pre ++ s) = true.
Proof.
  intros H. induction pre as [| c pre IH]; [exact H |].
  change (String c pre ++ s)%string with (String c (pre ++ s)%string).
  cbn [Str.endswith]. rewrite IH. apply orb_true_r.
Qed.

(** *** The extension *)




(** *** Lines and cells *)

















(** *** Reading a plain text *)




(** *** The table of a header and its rows *)






Lemma all_digits_not_minus (c : ascii) (s : string) :
  all_digits (String c s) = true -> Ascii.eqb c "-"%char = false.
Proof.
  cbn [all_digits]. intros H. apply andb_true_iff in H as [Hc _].
  apply Ascii.eqb_neq. intros ->. discriminate.
Qed.
















(** ** The end-to-end scenario *)

Lemma scenario_table_of_lines :
  table_of_lines scenario_header scenario_rows = Ok scenario_table.
Proof. vm_compute. reflexivity. Qed.

Lemma scenario_load (name bom eol b1 b2 b3 b4 : string) :
  is_csv name = true ->
  Str.contains "Metadata" name = false ->
  eol_ok eol ->
  bom = EmptyString \/ bom = BOM ->
  forallb no_eol [b1; b2; b3; b4] = true ->
  load_all_csv_from_zip [(name, scenario_bytes bom eol b1 b2 b3 b4)]
  = Ok [(Str.basename name, scenario_table)].
Proof.
  intros Hcsv Hdata Heol Hbom Hclean.
  unfold load_all_csv_from_zip, namelist. cbn [map fst load_loop].
  rewrite Hcsv. unfold z_open. cbn [fold_left fst snd].
  rewrite String.eqb_refl. cbn [rbind].
  unfold scenario_bytes.
  rewrite (parse_entry_data name eol bom b1 b2 b3 b4 scenario_header
             scenario_rows Hdata Heol Hbom).
  - rewrite scenario_table_of_lines. reflexivity.
  - cbn [forallb] in *.
    repeat (apply andb_true_iff in Hclean as [? Hclean]).
    repeat (apply andb_true_iff; split; try assumption); reflexivity.
  - reflexivity.
Qed.

(** The two visualizations of the scenario's table, after any console
    output. *)
Lemma scenario_stages (k : string) :
  exists bars top,
    visualizations default_config scenario_table [UsingDataset k]
    = ([UsingDataset k;
        VisualizingContinuous "2020";
        Histogram "2020" [2000000; 6000000];
        ContinuousSummary "2020" (describe [2000000; 6000000]);
        VisualizingCategorical "2020 (Population Size Categories)";
        BarChart "2020 (Population Size Categories)" bars;
        CategoricalSummary "2020 (Population Size Categories)" 2 2 top],
       Ok tt).
Proof. do 2 eexists. vm_compute. reflexivity. Qed.

(** C7. An archive with one data entry (four preamble lines, the header
    "Country Name,Country Code,2019,2020", the rows "A,AAA,100,2000000"
    and "B,BBB,200,6000000"), run with the script's configuration
    (continuous column "2020", binning enabled on "2020"): the derived
    categorical series is ["1M - 5M"; "5M - 10M"] and the continuous
    summary has count 2, mean 4000000, minimum 2000000, maximum
    6000000. *)
Theorem C7_end_to_end (name bom eol b1 b2 b3 b4 : string) :
  is_csv name = true ->
  Str.contains "Metadata" name = false ->
  eol_ok eol ->
  bom = EmptyString \/ bom = BOM ->
  forallb no_eol [b1; b2; b3; b4] = true ->
  let z := [(name, scenario_bytes bom eol b1 b2 b3 b4)] in
  load_all_csv_from_zip z = Ok [(Str.basename name, scenario_table)] /\
  column "2020" scenario_table
  = Some (NumSeries [Some 2000000; Some 6000000]) /\
  categorical_series (NumSeries [Some 2000000; Some 6000000])
  = Ok [Some "1M - 5M"; Some "5M - 10M"] /\
  exists s bars top me,
    run default_config z
    = ([UsingDataset (Str.basename name);
        VisualizingContinuous "2020";
        Histogram "2020" [2000000; 6000000];
        ContinuousSummary "2020" s;
        VisualizingCategorical "2020 (Population Size Categories)";
        BarChart "2020 (Population Size Categories)" bars;
        CategoricalSummary "2020 (Population Size Categories)" 2 2 top],
       Ok tt) /\
    s_count s = 2%nat /\
    s_mean s = Some me /\ me == 4000000 /\
    s_min s = Some 2000000 /\
    s_max s = Some 6000000.
Proof.
  intros Hcsv Hdata Heol Hbom Hclean z.
  pose proof (scenario_load name bom eol b1 b2 b3 b4 Hcsv Hdata Heol Hbom Hclean)
    as Hload.
  split; [exact Hload |]. split; [reflexivity |]. split; [reflexivity |].
  destruct (scenario_stages (Str.basename name)) as [bars [top Hstages]].
  exists (describe [2000000; 6000000]), bars, top, 4000000.
  split; [| repeat split; vm_compute; reflexivity].
  unfold run, script. subst z. unfold bind at 1, lift. rewrite Hload.
  unfold bind at 1.
  pose proof (select_first_non_metadata [] [] (Str.basename name)
                scenario_table [] (fun e (F : In e []) => match F with end)
                (contains_basename "Metadata" name Hdata)
                (is_csv_basename_truthy name Hcsv)) as Hsel.
  cbn [app] in Hsel. rewrite Hsel. exact Hstages.
Qed.

Lemma C7_end_to_end_witness :
  exists s bars top me,
    run default_config
      [("API_SP.POP.TOTL_DS2_en_csv_v2_34.csv",
        scenario_bytes BOM CRLF "Data Source,World Development Indicators"
          EmptyString "Last Updated Date,2024-06-28" EmptyString)]
    = ([UsingDataset "API_SP.POP.TOTL_DS2_en_csv_v2_34.csv";
        VisualizingContinuous "2020";
        Histogram "2020" [2000000; 6000000];
        ContinuousSummary "2020" s;
        VisualizingCategorical "2020 (Population Size Categories)";
        BarChart "2020 (Population Size Categories)" bars;
        CategoricalSummary "2020 (Population Size Categories)" 2 2 top],
       Ok tt) /\
    s_count s = 2%nat /\
    s_mean s = Some me /\ me == 4000000 /\
    s_min s = Some 2000000 /\
    s_max s = Some 6000000.
Proof.
  refine (proj2 (proj2 (proj2
    (C7_end_to_end "API_SP.POP.TOTL_DS2_en_csv_v2_34.csv" BOM CRLF
       "Data Source,World Development Indicators" EmptyString
       "Last Updated Date,2024-06-28" EmptyString _ _ _ _ _)))).
  - reflexivity.
  - reflexivity.
  - now right.
  - now right.
  - reflexivity.
Defined.

(** ** The visualization paths *)

Lemma column_has_column (col : string) (df : DataFrame) (s : Series) :
  column col df = Some s -> has_column col df = true.
Proof.
  unfold column, has_column, columns.
  induction df as [| [k v] df IH]; simpl; [discriminate |].
  rewrite (String.eqb_sym col k).
  destruct (String.eqb k col); [reflexivity | exact IH].
Qed.

Lemma insert_desc_length (p : value * nat) (l : list (value * nat)) :
  List.length (insert_desc p l) = S (List.length l).
Proof.
  induction l as [| q l IH]; simpl; [reflexivity |].
  destruct (snd q <=? snd p)%nat; simpl; [reflexivity | now rewrite IH].
Qed.

Lemma sort_desc_length (l : list (value * nat)) :
  List.length (sort_desc l) = List.length l.
Proof.
  induction l as [| p l IH]; simpl; [reflexivity |].
  now rewrite insert_desc_length, IH.
Qed.

(** A categorical series is counted on all of its categories. *)
Lemma value_counts_categories_length (cats xs : list value) :
  List.length (value_counts (Some cats) xs) = List.length cats.
Proof. unfold value_counts. now rewrite sort_desc_length, length_map. Qed.

(** The continuous path on a column the table lacks: a warning, no
    histogram, no exception. *)
Lemma continuous_stage_missing (cfg : config) (df : DataFrame) (col : string)
    (tr : list event) :
  continuous_column cfg = Some col ->
  Str.truthy col = true ->
  has_column col df = false ->
  continuous_stage cfg df tr
  = (tr ++ [WarnContinuousNotFound col (columns df)], Ok tt).
Proof.
  intros Hcol Htruthy Hmissing. unfold continuous_stage.
  now rewrite Hcol, Htruthy, Hmissing.
Qed.

(** The binning path on a numeric column: the bar chart of the seven
    categories. *)
Lemma binning_stage_numeric (cfg : config) (df : DataFrame)
    (xs : list (option Q)) (tr : list event) :
  CREATE_CATEGORICAL_FROM_CONTINUOUS cfg = true ->
  column (CONTINUOUS_COLUMN_FOR_BINNING cfg) df = Some (NumSeries xs) ->
  let name := categorical_column_name (CONTINUOUS_COLUMN_FOR_BINNING cfg) in
  let cs := dropna (map (option_map VStr) (cut (dropna xs) bins labels true)) in
  let bars := value_counts (Some (map VStr labels)) cs in
  binning_stage cfg df tr
  = (tr ++ [VisualizingCategorical name;
            BarChart name bars;
            CategoricalSummary name (nunique cs) (List.length cs) bars],
     Ok tt).
Proof.
  intros Hcreate Hcolumn name cs bars. unfold binning_stage.
  rewrite Hcreate, (column_has_column _ _ _ Hcolumn), Hcolumn.
  cbn [andb is_numeric_dtype]. rewrite orb_true_r.
  cbn [categorical_series]. unfold bind at 1, lift.
  unfold bind at 1, emit at 1. unfold visualize_categorical.
  fold name. fold cs. fold bars.
  assert (Hlen : List.length bars = 7%nat)
    by (subst bars; now rewrite value_counts_categories_length).
  assert (Hall : firstn 10 bars = bars) by (apply firstn_all2; lia).
  rewrite Hall.
  destruct bars as [| b bars'] eqn:Ebars; [discriminate |].
  rewrite <- Ebars in *. rewrite Hall.
  unfold bind, emit. now rewrite <- !app_assoc.
Qed.

(** With its column absent the binning block is skipped as a whole and
    the [elif] takes over. *)
Lemma binning_stage_falls_through (cfg : config) (df : DataFrame)
    (tr : list event) :
  has_column (CONTINUOUS_COLUMN_FOR_BINNING cfg) df = false ->
  binning_stage cfg df tr = categorical_stage cfg df tr.
Proof.
  intros Hmissing. unfold binning_stage. now rewrite Hmissing, andb_false_r.
Qed.

(** C3. The failing input: only the binning path is configured
    (continuous_column = None, categorical_column = None, binning on
    "2020") and the table has no column "2020".  The two visualization
    statements then print nothing at all and return, where the claim has
    a diagnostic.  On the same table the two sibling paths do report the
    absent column: the continuous path and the plain categorical path
    each print their not-found warning. *)
Theorem C3_absent_binning_column_is_silent :
  has_column (CONTINUOUS_COLUMN_FOR_BINNING binning_only_config)
    table_without_2020 = false /\
  binning_stage binning_only_config table_without_2020 [] = ([], Ok tt) /\
  visualizations binning_only_config table_without_2020 [] = ([], Ok tt) /\
  continuous_stage default_config table_without_2020 []
  = ([WarnContinuousNotFound "2020" ["Country Name"; "2019"]], Ok tt) /\
  categorical_stage categorical_only_config table_without_2020 []
  = ([WarnCategoricalNotFound "2020" ["Country Name"; "2019"]], Ok tt).
Proof. repeat split; reflexivity. Qed.

(** Counterexample to C8 as stated: the binning column exists but holds
    text; after the warning of the continuous path the binning path
    prints that it cannot create categories and renders no bar chart. *)
Lemma C8_counterexample :
  has_column "2020" table_without_2020 = false /\
  has_column (CONTINUOUS_COLUMN_FOR_BINNING text_binning_config)
    table_without_2020 = true /\
  visualizations text_binning_config table_without_2020 []
  = ([WarnContinuousNotFound "2020" ["Country Name"; "2019"];
      CannotCreateCategories "Country Name"], Ok tt).
Proof. repeat split; reflexivity. Qed.

(** The binning path on a text column that is not called "2020": the
    message that no categories can be made, and no chart. *)
Lemma binning_stage_text (cfg : config) (df : DataFrame)
    (ys : list (option string)) (tr : list event) :
  CREATE_CATEGORICAL_FROM_CONTINUOUS cfg = true ->
  column (CONTINUOUS_COLUMN_FOR_BINNING cfg) df = Some (ObjSeries ys) ->
  CONTINUOUS_COLUMN_FOR_BINNING cfg <> "2020" ->
  binning_stage cfg df tr
  = (tr ++ [CannotCreateCategories (CONTINUOUS_COLUMN_FOR_BINNING cfg)], Ok tt).
Proof.
  intros Hcreate Hcolumn Hname. unfold binning_stage.
  rewrite Hcreate, (column_has_column _ _ _ Hcolumn), Hcolumn.
  apply String.eqb_neq in Hname. rewrite Hname. reflexivity.
Qed.

(** C8 (amended). When the configured continuous column is absent, a
    warning is printed and no histogram is rendered; the binning path
    then runs all the same.  Binning being enabled and its own column
    present, it renders its bar chart when that column is numeric, and
    when that column is text and not called "2020" it prints that it
    cannot create categories and renders nothing. *)
Theorem C8_paths_independent (cfg : config) (df : DataFrame) (col : string)
    (s : Series) (tr : list event) :
  continuous_column cfg = Some col ->
  Str.truthy col = true ->
  has_column col df = false ->
  CREATE_CATEGORICAL_FROM_CONTINUOUS cfg = true ->
  column (CONTINUOUS_COLUMN_FOR_BINNING cfg) df = Some s ->
  continuous_stage cfg df tr
  = (tr ++ [WarnContinuousNotFound col (columns df)], Ok tt) /\
  (forall xs,
     s = NumSeries xs ->
     let name := categorical_column_name (CONTINUOUS_COLUMN_FOR_BINNING cfg) in
     let cs :=
       dropna (map (option_map VStr) (cut (dropna xs) bins labels true)) in
     let bars := value_counts (Some (map VStr labels)) cs in
     List.length bars = 7%nat /\
     visualizations cfg df tr
     = (tr ++ [WarnContinuousNotFound col (columns df);
               VisualizingCategorical name;
               BarChart name bars;
               CategoricalSummary name (nunique cs) (List.length cs) bars],
        Ok tt)) /\
  (forall ys,
     s = ObjSeries ys ->
     CONTINUOUS_COLUMN_FOR_BINNING cfg <> "2020" ->
     visualizations cfg df tr
     = (tr ++ [WarnContinuousNotFound col (columns df);
               CannotCreateCategories (CONTINUOUS_COLUMN_FOR_BINNING cfg)],
        Ok tt)).
Proof.
  intros Hcol Htruthy Hmissing Hcreate Hcolumn.
  pose proof (continuous_stage_missing cfg df col tr Hcol Htruthy Hmissing)
    as Hcont.
  split; [exact Hcont |]. split.
  - intros xs -> name cs bars. split.
    + subst bars. now rewrite value_counts_categories_length.
    + unfold visualizations, bind. rewrite Hcont.
      rewrite (binning_stage_numeric cfg df xs _ Hcreate Hcolumn).
      fold name. fold cs. fold bars. now rewrite <- app_assoc.
  - intros ys -> Hname. unfold visualizations, bind. rewrite Hcont.
    rewrite (binning_stage_text cfg df ys _ Hcreate Hcolumn Hname).
    now rewrite <- app_assoc.
Qed.

Lemma C8_paths_independent_witness :
  (exists bars,
     List.length bars = 7%nat /\
     visualizations split_config table_without_2020 []
     = ([WarnContinuousNotFound "2020" ["Country Name"; "2019"];
         VisualizingCategorical "2019 (Population Size Categories)";
         BarChart "2019 (Population Size Categories)" bars;
         CategoricalSummary "2019 (Population Size Categories)" 2 2 bars],
        Ok tt)) /\
  visualizations text_binning_config table_without_2020 []
  = ([WarnContinuousNotFound "2020" ["Country Name"; "2019"];
      CannotCreateCategories "Country Name"], Ok tt).
Proof.
  split.
  - eexists.
    exact (proj1 (proj2 (C8_paths_independent split_config table_without_2020
                           "2020" (NumSeries [Some 100; Some 2000000]) []
                           eq_refl eq_refl eq_refl eq_refl eq_refl))
             [Some 100; Some 2000000] eq_refl).
  - exact (proj2 (proj2 (C8_paths_independent text_binning_config
                           table_without_2020 "2020"
                           (ObjSeries [Some "A"; Some "B"]) []
                           eq_refl eq_refl eq_refl eq_refl eq_refl))
             [Some "A"; Some "B"] eq_refl ltac:(discriminate)).
Defined.

(** * Further properties of the script *)

(** ** The loader, entry by entry *)

Lemma z_open_fold_ok (name : string) (z : archive) :
  forall acc : result string,
  (exists b, acc = Ok b) \/ In name (namelist z) ->
  exists b,
    fold_left
      (fun found e => if String.eqb (fst e) name then Ok (snd e) else found)
      z acc = Ok b.
Proof.
  induction z as [| e z IH]; intros acc H; simpl.
  - destruct H as [H | []]. exact H.
  - apply IH. destruct (String.eqb (fst e) name) eqn:E.
    + left. eauto.
    + destruct H as [H | [H | H]]; [now left | | now right].
      apply String.eqb_neq in E. contradiction.
Qed.

(** Every name of [z.namelist()] can be opened. *)
Lemma z_open_namelist (z : archive) (name : string) :
  In name (namelist z) -> exists b, z_open z name = Ok b.
Proof. intros H. apply z_open_fold_ok. now right. Qed.

Lemma load_loop_cons_csv (z : archive) (file : string) (rest : list string)
    (d : Dict.t DataFrame) :
  is_csv file = true ->
  load_loop z (file :: rest) d
  = rbind (read_entry z file)
      (fun df => load_loop z rest (Dict.set (Str.basename file) df d)).
Proof.
  intros H. cbn [load_loop]. rewrite H. unfold read_entry.
  destruct (z_open z file); reflexivity.
Qed.

Lemma load_loop_cons_other (z : archive) (file : string) (rest : list string)
    (d : Dict.t DataFrame) :
  is_csv file = false -> load_loop z (file :: rest) d = load_loop z rest d.
Proof. intros H. cbn [load_loop]. now rewrite H. Qed.

Lemma load_loop_ok_iff (z : archive) (names : list string) :
  forall d : Dict.t DataFrame,
  (exists m, load_loop z names d = Ok m) <->
  (forall file, In file names -> is_csv file = true ->
                exists df, read_entry z file = Ok df).
Proof.
  induction names as [| file rest IH]; intros d.
  - split; [intros _ f [] | intros _; now exists d].
  - destruct (is_csv file) eqn:Hcsv.
    + rewrite (load_loop_cons_csv _ _ _ _ Hcsv). split.
      * intros [m Hm]. apply rbind_ok in Hm as [df [Hread Hrest]].
        intros f [<- | Hf] Hf'; [eauto |].
        exact (proj1 (IH _) (ex_intro _ m Hrest) f Hf Hf').
      * intros H. destruct (H file (or_introl eq_refl) Hcsv) as [df Hread].
        rewrite Hread. cbn [rbind]. apply IH.
        intros f Hf. apply H. now right.
    + rewrite (load_loop_cons_other _ _ _ _ Hcsv). rewrite IH. split.
      * intros H f [<- | Hf] Hf'; [congruence | now apply H].
      * intros H f Hf. apply H. now right.
Qed.

(** X1. Loading succeeds exactly when every CSV entry of the archive can
    be read: one entry that fails to parse makes the whole load fail, and
    nothing else does. *)
Theorem loader_succeeds_iff_all_entries_parse (z : archive) :
  (exists ds, load_all_csv_from_zip z = Ok ds) <->
  (forall file, In file (namelist z) -> is_csv file = true ->
                exists df, read_entry z file = Ok df).
Proof. apply load_loop_ok_iff. Qed.

Lemma loader_succeeds_iff_all_entries_parse_witness :
  exists ds, load_all_csv_from_zip sample_archive = Ok ds.
Proof.
  apply (proj2 (loader_succeeds_iff_all_entries_parse sample_archive)).
  intros file [<- | [<- | []]] _; eexists; vm_compute; reflexivity.
Defined.

Lemma load_loop_first_error (z : archive) (front back : list string)
    (file : string) (e : exn) :
  forall d : Dict.t DataFrame,
  (forall f, In f front -> is_csv f = true ->
             exists df, read_entry z f = Ok df) ->
  is_csv file = true ->
  read_entry z file = Raise e ->
  load_loop z (front ++ file :: back) d = Raise e.
Proof.
  induction front as [| g front IH]; intros d Hfront Hcsv Hread.
  - cbn [app]. rewrite (load_loop_cons_csv _ _ _ _ Hcsv), Hread. reflexivity.
  - cbn [app]. destruct (is_csv g) eqn:Hg.
    + rewrite (load_loop_cons_csv _ _ _ _ Hg).
      destruct (Hfront g (or_introl eq_refl) Hg) as [df ->]. cbn [rbind].
      apply IH; try assumption. intros f Hf. apply Hfront. now right.
    + rewrite (load_loop_cons_other _ _ _ _ Hg).
      apply IH; try assumption. intros f Hf. apply Hfront. now right.
Qed.

(** X2. The exception of a run whose loading fails is the one raised by
    the first CSV entry, in archive order, that cannot be read; the run
    stops there with nothing printed. *)
Theorem first_unreadable_entry_aborts_run (cfg : config) (z : archive)
    (front back : list string) (file : string) (e : exn) :
  namelist z = front ++ file :: back ->
  (forall f, In f front -> is_csv f = true ->
             exists df, read_entry z f = Ok df) ->
  is_csv file = true ->
  read_entry z file = Raise e ->
  load_all_csv_from_zip z = Raise e /\ run cfg z = ([], Raise e).
Proof.
  intros Hnames Hfront Hcsv Hread.
  assert (Hload : load_all_csv_from_zip z = Raise e).
  { unfold load_all_csv_from_zip. rewrite Hnames.
    now apply load_loop_first_error. }
  split; [exact Hload |].
  unfold run, script, bind, lift. now rewrite Hload.
Qed.

Lemma first_unreadable_entry_aborts_run_witness :
  load_all_csv_from_zip truncated_archive = Raise EmptyDataError /\
  run default_config truncated_archive = ([], Raise EmptyDataError).
Proof.
  apply (first_unreadable_entry_aborts_run default_config truncated_archive
           ["Metadata_Country_API_SP.POP.TOTL.csv"; "README.txt"]
           ["backup/API_SP.POP.TOTL_DS2_en_csv_v2_33.csv"]
           "API_SP.POP.TOTL_DS2_en_csv_v2_34.csv" EmptyDataError).
  - reflexivity.
  - intros f [<- | [<- | []]] Hf.
    + eexists. vm_compute. reflexivity.
    + discriminate Hf.
  - reflexivity.
  - vm_compute. reflexivity.
Defined.

Lemma decoded_lines_length (eol : string) (ls : list string) :
  eol_ok eol -> forallb no_eol ls = true ->
  List.length (lines (decode_utf8_sig (unlines eol ls))) = List.length ls.
Proof.
  intros Heol Hclean. destruct ls as [| l ls]; [reflexivity |].
  cbn [forallb] in Hclean. apply andb_true_iff in Hclean as [Hl Hls].
  cbn [unlines].
  destruct (decode_first_line eol l (unlines eol ls) Heol Hl) as [l' [Hl' ->]].
  change (l' ++ eol ++ unlines eol ls)%string with (unlines eol (l' :: ls)).
  rewrite lines_unlines; [reflexivity | exact Heol |].
  cbn [forallb]. now rewrite Hl', Hls.
Qed.

(** X3. A data entry (no "Metadata" in its name) with at most four lines
    has nothing left after the four skipped rows: reading it raises
    pandas' [EmptyDataError]. *)
Theorem short_data_entry_raises_empty_data (file eol : string)
    (ls : list string) :
  Str.contains "Metadata" file = false ->
  eol_ok eol ->
  forallb no_eol ls = true ->
  (List.length ls <= 4)%nat ->
  parse_entry file (unlines eol ls) = Raise EmptyDataError.
Proof.
  intros Hdata Heol Hclean Hlen. unfold parse_entry, read_csv, read_csv_text.
  rewrite Hdata, skipn_all2; [reflexivity |].
  now rewrite decoded_lines_length.
Qed.

Lemma short_data_entry_raises_empty_data_witness :
  parse_entry "API_SP.POP.TOTL_DS2_en_csv_v2_34.csv" truncated_data
  = Raise EmptyDataError.
Proof.
  apply (short_data_entry_raises_empty_data
           "API_SP.POP.TOTL_DS2_en_csv_v2_34.csv" newline
           ["Data Source,World Development Indicators"; EmptyString;
            "Last Updated Date,2024-06-28"]).
  - reflexivity.
  - now left.
  - reflexivity.
  - simpl. lia.
Defined.

(** The loader consults the archive only through the entries it opens. *)
Lemma load_loop_ext (z z' : archive) (names : list string) :
  forall d : Dict.t DataFrame,
  (forall file, In file names -> is_csv file = true ->
                z_open z file = z_open z' file) ->
  load_loop z names d = load_loop z' names d.
Proof.
  induction names as [| file rest IH]; intros d H; [reflexivity |].
  cbn [load_loop]. destruct (is_csv file) eqn:Hcsv.
  - rewrite (H file (or_introl eq_refl) Hcsv).
    destruct (z_open z' file) as [f |]; [| reflexivity]. cbn [rbind].
    destruct (parse_entry file f) as [df |]; [| reflexivity]. cbn [rbind].
    apply IH. intros g Hg. apply H. now right.
  - apply IH. intros g Hg. apply H. now right.
Qed.

Lemma load_loop_filter (z : archive) (names : list string) :
  forall d : Dict.t DataFrame,
  load_loop z (filter is_csv names) d = load_loop z names d.
Proof.
  induction names as [| file rest IH]; intros d; [reflexivity |].
  cbn [filter]. destruct (is_csv file) eqn:Hcsv.
  - rewrite !(load_loop_cons_csv _ _ _ _ Hcsv).
    destruct (read_entry z file); [cbn [rbind]; apply IH | reflexivity].
  - rewrite (load_loop_cons_other _ _ _ _ Hcsv). apply IH.
Qed.

Lemma z_open_csv_entries (z : archive) (file : string) :
  is_csv file = true -> z_open (csv_entries z) file = z_open z file.
Proof.
  intros Hcsv. unfold z_open, csv_entries.
  generalize (@Raise string KeyError).
  induction z as [| e z IH]; intros acc; [reflexivity |].
  cbn [filter fold_left]. destruct (is_csv (fst e)) eqn:He.
  - cbn [fold_left]. apply IH.
  - destruct (String.eqb (fst e) file) eqn:E; [| apply IH].
    apply String.eqb_eq in E. congruence.
Qed.

Lemma namelist_csv_entries (z : archive) :
  namelist (csv_entries z) = filter is_csv (namelist z).
Proof.
  unfold namelist, csv_entries.
  induction z as [| e z IH]; [reflexivity |].
  cbn [filter map]. destruct (is_csv (fst e)); cbn [map]; now rewrite IH.
Qed.

(** X4. Entries that are not CSV files have no influence on the result:
    loading an archive and loading it with those entries removed give the
    same mapping or the same exception. *)
Theorem loader_ignores_other_entries (z : archive) :
  load_all_csv_from_zip z = load_all_csv_from_zip (csv_entries z).
Proof.
  unfold load_all_csv_from_zip.
  rewrite namelist_csv_entries, load_loop_filter.
  symmetry. apply load_loop_ext.
  intros file _ Hcsv. now apply z_open_csv_entries.
Qed.

Lemma load_loop_keys_order (z : archive) (names : list string) :
  forall (d m : Dict.t DataFrame),
  load_loop z names d = Ok m ->
  Dict.keys m
  = first_occurrences (Dict.keys d) (map Str.basename (filter is_csv names)).
Proof.
  induction names as [| file rest IH]; intros d m H.
  - simpl in H. injection H as H. now subst m.
  - destruct (is_csv file) eqn:Hcsv.
    + destruct (load_loop_csv_step _ _ _ _ _ Hcsv H) as [b [df [_ [_ Hrest]]]].
      rewrite (IH _ _ Hrest), keys_set. cbn [filter]. rewrite Hcsv. reflexivity.
    + rewrite (load_loop_cons_other _ _ _ _ Hcsv) in H.
      rewrite (IH _ _ H). cbn [filter]. now rewrite Hcsv.
Qed.

(** X5. The keys of the mapping are the base names of the CSV entries in
    archive order, each at the place of its first occurrence: an entry
    that overwrites an earlier one takes over that earlier position. *)
Theorem loader_keys_in_first_occurrence_order (z : archive)
    (ds : Dict.t DataFrame) :
  load_all_csv_from_zip z = Ok ds ->
  Dict.keys ds
  = first_occurrences [] (map Str.basename (filter is_csv (namelist z))).
Proof. intros H. exact (load_loop_keys_order z (namelist z) [] ds H). Qed.

Lemma loader_keys_in_first_occurrence_order_witness :
  exists ds,
    load_all_csv_from_zip clashing_archive = Ok ds /\
    Dict.keys ds = ["population.csv"].
Proof.
  eexists. split; [vm_compute; reflexivity |].
  apply (loader_keys_in_first_occurrence_order clashing_archive).
  vm_compute. reflexivity.
Defined.

(** *** The shape of the keys *)

Lemma basename_from_no_slash (rest : string) :
  forall cur,
  (no_slash rest = true -> no_slash cur = true) ->
  no_slash (Str.basename_from cur rest) = true.
Proof.
  induction rest as [| c r IH]; intros cur H; cbn [Str.basename_from].
  - now apply H.
  - destruct (Ascii.eqb c "/"%char) eqn:E.
    + now apply IH.
    + apply IH. intros Hr. apply H. cbn [no_slash]. now rewrite E, Hr.
Qed.

Lemma basename_from_keep (rest cur : string) :
  no_slash rest = true -> Str.basename_from cur rest = cur.
Proof.
  revert cur. induction rest as [| c r IH]; intros cur H; [reflexivity |].
  cbn [no_slash] in H. apply andb_true_iff in H as [Hc Hr].
  apply negb_true_iff in Hc. cbn [Str.basename_from]. rewrite Hc. now apply IH.
Qed.

Lemma lower_char_not_slash (c : ascii) (d : ascii) :
  Str.lower_char c = d -> d <> "/"%char -> Ascii.eqb c "/"%char = false.
Proof.
  intros H Hd. apply Ascii.eqb_neq. intros ->. apply Hd. now rewrite <- H.
Qed.

Lemma basename_from_is_csv (rest : string) :
  forall cur,
  suffix rest cur ->
  Str.endswith ".csv" (Str.lower rest) = true ->
  Str.endswith ".csv" (Str.lower (Str.basename_from cur rest)) = true.
Proof.
  induction rest as [| c r IH]; intros cur Hsuf H; [discriminate |].
  pose proof (suffix_cons c r cur Hsuf) as Hsuf'.
  cbn [Str.basename_from].
  change (Str.lower (String c r)) with (String (Str.lower_char c) (Str.lower r)) in H.
  cbn [Str.endswith] in H. apply orb_true_iff in H as [H | H].
  - apply String.eqb_eq in H. injection H as Hc Hr.
    assert (Hns : no_slash r = true).
    { destruct r as [| x [| y [| w [| ? ?]]]]; try discriminate.
      cbn [Str.lower] in Hr. injection Hr as Hx Hy Hw.
      cbn [no_slash].
      rewrite (lower_char_not_slash x _ Hx), (lower_char_not_slash y _ Hy),
        (lower_char_not_slash w _ Hw); [reflexivity | | |]; discriminate. }
    rewrite (lower_char_not_slash c _ Hc); [| discriminate].
    rewrite (basename_from_keep r cur Hns).
    destruct Hsuf as [pre ->]. rewrite lower_append.
    apply endswith_append.
    change (Str.lower (String c r)) with (String (Str.lower_char c) (Str.lower r)).
    rewrite Hc, Hr. reflexivity.
  - destruct (Ascii.eqb c "/"%char).
    + apply IH; [apply suffix_refl | exact H].
    + apply IH; assumption.
Qed.

(** X6. Every key of the mapping is a file name proper: it has no '/',
    it ends in ".csv" whatever its case, and it is not empty. *)
Theorem loader_keys_are_csv_file_names (z : archive) (ds : Dict.t DataFrame)
    (k : string) :
  load_all_csv_from_zip z = Ok ds ->
  In k (Dict.keys ds) ->
  no_slash k = true /\ is_csv k = true /\ k <> EmptyString.
Proof.
  intros Hload Hk.
  pose proof (load_keys_truthy z ds Hload k Hk) as Htruthy.
  apply (load_loop_keys _ _ _ _ Hload) in Hk. destruct Hk as [[] | Hk].
  apply in_map_iff in Hk as [file [<- Hfile]].
  apply filter_In in Hfile as [_ Hcsv].
  repeat split.
  - apply basename_from_no_slash. auto.
  - apply basename_from_is_csv; [apply suffix_refl | exact Hcsv].
  - intros E. rewrite E in Htruthy. discriminate.
Qed.

Lemma loader_keys_are_csv_file_names_witness :
  no_slash "population.csv" = true /\ is_csv "population.csv" = true /\
  "population.csv" <> EmptyString.
Proof.
  refine (loader_keys_are_csv_file_names clashing_archive _ "population.csv"
            _ _).
  - vm_compute. reflexivity.
  - now left.
Defined.

(** *** Entries of the same name *)

Lemma z_open_fold_shadowed (name : string) (rest : archive) :
  forall acc acc' : result string,
  In name (namelist rest) ->
  fold_left
    (fun found e => if String.eqb (fst e) name then Ok (snd e) else found)
    rest acc
  = fold_left
      (fun found e => if String.eqb (fst e) name then Ok (snd e) else found)
      rest acc'.
Proof.
  induction rest as [| e rest IH]; intros acc acc' H; [destruct H |].
  cbn [fold_left]. destruct (String.eqb (fst e) name) eqn:E; [reflexivity |].
  apply IH. destruct H as [H | H]; [| exact H].
  apply String.eqb_neq in E. contradiction.
Qed.

(** X7. When a member name occurs twice, [z.open] yields the later
    entry on both turns of the loop: the bytes of the earlier entry are
    never read, whatever they are. *)
Theorem shadowed_entry_is_never_read (pre mid post : archive)
    (name b1 b1' b2 : string) :
  load_all_csv_from_zip (pre ++ (name, b1) :: mid ++ (name, b2) :: post)
  = load_all_csv_from_zip (pre ++ (name, b1') :: mid ++ (name, b2) :: post).
Proof.
  unfold load_all_csv_from_zip.
  assert (Hn : namelist (pre ++ (name, b1) :: mid ++ (name, b2) :: post)
               = namelist (pre ++ (name, b1') :: mid ++ (name, b2) :: post)).
  { unfold namelist. now rewrite !map_app. }
  rewrite Hn. apply load_loop_ext. intros file _ _.
  unfold z_open. rewrite !fold_left_app. cbn [fold_left fst snd].
  destruct (String.eqb name file) eqn:E; [| reflexivity].
  apply String.eqb_eq in E. subst file.
  apply z_open_fold_shadowed.
  unfold namelist. rewrite map_app. apply in_or_app. right. now left.
Qed.

(** ** The selector on arbitrary mappings *)

Lemma select_dataset_nonempty (ds : Dict.t DataFrame) (tr : list event) :
  ds <> [] ->
  exists k df,
    In (k, df) ds /\
    (select_dataset ds tr = (tr ++ [UsingDataset k], Ok df) \/
     select_dataset ds tr = (tr ++ [UsingFirstDataset k], Ok df)).
Proof.
  intros Hne. destruct ds as [| [k0 df0] rest] eqn:Eds; [congruence |].
  rewrite <- Eds.
  assert (Hfirst : first_dataset ds tr = (tr ++ [UsingFirstDataset k0], Ok df0))
    by (rewrite Eds; reflexivity).
  destruct (first_non_metadata_split ds)
    as [[pre [k [df [post [Hds [Hpre Hk]]]]]] | Hall].
  - destruct (Str.truthy k) eqn:Htruthy.
    + exists k, df. split.
      * rewrite Hds. apply in_or_app. right. now left.
      * left. rewrite Hds. now apply select_first_non_metadata.
    + exists k0, df0. split; [rewrite Eds; now left |].
      assert (Hm : main_data_file ds = Some k)
        by (rewrite Hds; now apply main_data_file_first).
      right. unfold select_dataset. rewrite Hm, Htruthy. exact Hfirst.
  - exists k0, df0. split; [rewrite Eds; now left |].
    right. unfold select_dataset. rewrite (main_data_file_none ds Hall).
    exact Hfirst.
Qed.

(** X8. The selector raises on the empty mapping only.  On any other
    mapping, whatever its keys, it prints exactly one message and returns
    a table that the mapping holds under the name it prints. *)
Theorem selector_returns_an_entry (ds : Dict.t DataFrame) (tr : list event) :
  ds <> [] ->
  exists k df,
    In (k, df) ds /\
    (select_dataset ds tr = (tr ++ [UsingDataset k], Ok df) \/
     select_dataset ds tr = (tr ++ [UsingFirstDataset k], Ok df)).
Proof. exact (select_dataset_nonempty ds tr). Qed.

Lemma selector_returns_an_entry_witness :
  exists k df,
    In (k, df) [("Metadata_Country.csv", table_without_2020);
                ("data.csv", scenario_table)] /\
    (select_dataset [("Metadata_Country.csv", table_without_2020);
                     ("data.csv", scenario_table)] []
     = ([] ++ [UsingDataset k], Ok df) \/
     select_dataset [("Metadata_Country.csv", table_without_2020);
                     ("data.csv", scenario_table)] []
     = ([] ++ [UsingFirstDataset k], Ok df)).
Proof.
  apply (selector_returns_an_entry
           [("Metadata_Country.csv", table_without_2020);
            ("data.csv", scenario_table)] []).
  discriminate.
Defined.

Lemma select_dataset_raises (ds : Dict.t DataFrame) (tr tr' : list event)
    (e : exn) :
  select_dataset ds tr = (tr', Raise e) -> ds = [] /\ e = IndexError /\ tr' = tr.
Proof.
  intros H. destruct ds as [| p rest].
  - cbv in H. injection H as <- <-. auto.
  - destruct (select_dataset_nonempty (p :: rest) tr ltac:(discriminate))
      as [k [df [_ [H' | H']]]]; rewrite H' in H; discriminate.
Qed.

(** ** What the visualization paths can raise *)

Lemma has_column_column (col : string) (df : DataFrame) :
  has_column col df = true -> exists s, column col df = Some s.
Proof.
  unfold has_column, column, columns.
  induction df as [| [k v] df IH]; simpl; [discriminate |].
  rewrite (String.eqb_sym col k).
  destruct (String.eqb k col); [eauto | exact IH].
Qed.

Lemma continuous_stage_outcome (cfg : config) (df : DataFrame)
    (tr : list event) :
  exists evs,
    continuous_stage cfg df tr = (tr ++ evs, Ok tt) /\
    (List.length evs <= 3)%nat /\
    (forall name data,
       In (Histogram name data) evs ->
       exists xs,
         continuous_column cfg = Some name /\
         column name df = Some (NumSeries xs) /\
         data = dropna xs).
Proof.
  unfold continuous_stage.
  destruct (continuous_column cfg) as [col |];
    [| exists []; rewrite app_nil_r; repeat split; [simpl; lia | intros ? ? []]].
  destruct (Str.truthy col);
    [| exists []; rewrite app_nil_r; repeat split; [simpl; lia | intros ? ? []]].
  destruct (has_column col df) eqn:Hhas; cbn [negb].
  - destruct (has_column_column col df Hhas) as [s Hs]. rewrite Hs.
    destruct s as [xs | xs].
    + exists [VisualizingContinuous col; Histogram col (dropna xs);
              ContinuousSummary col (describe (dropna xs))].
      repeat split.
      * unfold visualize_continuous, bind, emit. now rewrite <- !app_assoc.
      * simpl; lia.
      * intros name data [H | [H | [H | []]]]; try discriminate.
        injection H as <- <-. now exists xs.
    + exists [WarnNotNumeric col]. repeat split; [simpl; lia |].
      intros name data [H | []]. discriminate.
  - exists [WarnContinuousNotFound col (columns df)].
    repeat split; [simpl; lia |].
    intros name data [H | []]. discriminate.
Qed.

(** X9. A configuration mismatch on the continuous path is not fatal:
    when the configured column is absent from the table, or present but
    text, the block prints exactly one warning, renders no histogram and
    returns. *)
Theorem continuous_mismatch_is_one_warning (cfg : config) (df : DataFrame)
    (col : string) (tr : list event) :
  continuous_column cfg = Some col ->
  Str.truthy col = true ->
  (forall xs, column col df <> Some (NumSeries xs)) ->
  exists w,
    continuous_stage cfg df tr = (tr ++ [w], Ok tt) /\
    is_histogram w = false /\
    ((has_column col df = false /\
      w = WarnContinuousNotFound col (columns df)) \/
     (exists ys, column col df = Some (ObjSeries ys) /\ w = WarnNotNumeric col)).
Proof.
  intros Hcol Htruthy Hnum. unfold continuous_stage. rewrite Hcol, Htruthy.
  destruct (has_column col df) eqn:Hhas; cbn [negb].
  - destruct (has_column_column col df Hhas) as [s Hs]. rewrite Hs.
    destruct s as [xs | ys]; [exfalso; exact (Hnum xs Hs) |].
    exists (WarnNotNumeric col). repeat split. right. now exists ys.
  - exists (WarnContinuousNotFound col (columns df)). repeat split. now left.
Qed.

Lemma continuous_mismatch_is_one_warning_witness :
  exists w,
    continuous_stage default_config table_text_2020 [] = ([] ++ [w], Ok tt) /\
    is_histogram w = false /\
    ((has_column "2020" table_text_2020 = false /\
      w = WarnContinuousNotFound "2020" (columns table_text_2020)) \/
     (exists ys, column "2020" table_text_2020 = Some (ObjSeries ys) /\
                 w = WarnNotNumeric "2020")).
Proof.
  apply (continuous_mismatch_is_one_warning default_config table_text_2020
           "2020" []).
  - reflexivity.
  - reflexivity.
  - intros xs. discriminate.
Defined.

Lemma visualize_categorical_raises (categories : option (list value))
    (series : list (option value)) (name : string) (n : nat)
    (tr tr' : list event) (e : exn) :
  visualize_categorical categories series name n tr = (tr', Raise e) ->
  e = IndexError.
Proof.
  unfold visualize_categorical.
  destruct (firstn n (value_counts categories (dropna series))).
  - intros H. now injection H as _ <-.
  - unfold bind, emit. discriminate.
Qed.

Lemma categorical_stage_raises (cfg : config) (df : DataFrame)
    (tr tr' : list event) (e : exn) :
  categorical_stage cfg df tr = (tr', Raise e) -> e = IndexError.
Proof.
  unfold categorical_stage.
  destruct (categorical_column cfg) as [col |]; [| discriminate].
  destruct (Str.truthy col); [| discriminate].
  destruct (has_column col df) eqn:Hhas; cbn [negb]; [| discriminate].
  destruct (has_column_column col df Hhas) as [s ->].
  unfold bind at 1, emit at 1. apply visualize_categorical_raises.
Qed.

Lemma binning_stage_raises (cfg : config) (df : DataFrame)
    (tr tr' : list event) (e : exn) :
  binning_stage cfg df tr = (tr', Raise e) -> e = TypeError \/ e = IndexError.
Proof.
  unfold binning_stage.
  destruct (CREATE_CATEGORICAL_FROM_CONTINUOUS cfg
            && has_column (CONTINUOUS_COLUMN_FOR_BINNING cfg) df) eqn:Hcond.
  - apply andb_true_iff in Hcond as [_ Hhas].
    destruct (has_column_column _ df Hhas) as [s ->].
    destruct (String.eqb (CONTINUOUS_COLUMN_FOR_BINNING cfg) "2020"
              || is_numeric_dtype s); [| discriminate].
    unfold bind at 1, lift.
    destruct (categorical_series s) as [cs |] eqn:Hcs.
    + unfold bind at 1, emit at 1. intros H. right.
      exact (visualize_categorical_raises _ _ _ _ _ _ _ H).
    + intros H. injection H as _ <-. left.
      destruct s as [xs | xs]; [discriminate |].
      cbn [categorical_series] in Hcs.
      destruct (dropna xs); [discriminate | now injection Hcs as <-].
  - intros H. right. exact (categorical_stage_raises _ _ _ _ _ H).
Qed.

Lemma tokenize_rows_raises (width : nat) (rows : list string) (e : exn) :
  tokenize_rows width rows = Raise e -> e = ParserError.
Proof.
  induction rows as [| r rows IH]; [discriminate |].
  cbn [tokenize_rows]. destruct (width <? List.length (fields r))%nat.
  - intros H. now injection H as <-.
  - destruct (tokenize_rows width rows); [discriminate |].
    cbn [rbind]. intros H. injection H as <-. now apply IH.
Qed.

Lemma parse_entry_raises (file bytes : string) (e : exn) :
  parse_entry file bytes = Raise e -> e = ParserError \/ e = EmptyDataError.
Proof.
  assert (H : forall n, read_csv n bytes = Raise e ->
                        e = ParserError \/ e = EmptyDataError).
  { intros n. unfold read_csv, read_csv_text.
    destruct (filter _ _) as [| h rows].
    - intros H. injection H as <-. now right.
    - destruct (tokenize_rows _ rows) eqn:Et; [discriminate |].
      cbn [rbind]. intros H. injection H as <-. left.
      exact (tokenize_rows_raises _ _ _ Et). }
  unfold parse_entry. destruct (Str.contains "Metadata" file); apply H.
Qed.

Lemma load_loop_raises (z : archive) (names : list string) (e : exn) :
  forall d : Dict.t DataFrame,
  (forall f, In f names -> In f (namelist z)) ->
  load_loop z names d = Raise e ->
  e = ParserError \/ e = EmptyDataError.
Proof.
  induction names as [| file rest IH]; intros d Hin H; [discriminate |].
  cbn [load_loop] in H. destruct (is_csv file).
  - destruct (z_open_namelist z file (Hin file (or_introl eq_refl))) as [b Hb].
    rewrite Hb in H. cbn [rbind] in H.
    destruct (parse_entry file b) eqn:Hp.
    + cbn [rbind] in H. eapply IH; [| exact H]. intros f Hf. apply Hin. now right.
    + cbn [rbind] in H. injection H as <-. exact (parse_entry_raises _ _ _ Hp).
  - eapply IH; [| exact H]. intros f Hf. apply Hin. now right.
Qed.




(** X11. The test on the column name lets a text column "2020" through
    to [pd.cut]: under the script's own configuration such a table gets
    the not-numeric warning of the continuous path and then the run
    aborts with a [TypeError], without any chart. *)
Theorem text_2020_column_aborts_binning (df : DataFrame)
    (xs : list (option string)) (tr : list event) :
  column "2020" df = Some (ObjSeries xs) ->
  dropna xs <> [] ->
  visualizations default_config df tr
  = (tr ++ [WarnNotNumeric "2020"], Raise TypeError).
Proof.
  intros Hcol Hne.
  pose proof (column_has_column _ _ _ Hcol) as Hhas.
  unfold visualizations, bind, continuous_stage, binning_stage.
  cbn [default_config continuous_column CREATE_CATEGORICAL_FROM_CONTINUOUS
       CONTINUOUS_COLUMN_FOR_BINNING Str.truthy].
  rewrite Hhas, Hcol. cbn [negb andb emit].
  change (String.eqb "2020" "2020") with true. cbn [orb].
  unfold lift. cbn [categorical_series].
  destruct (dropna xs); [congruence | reflexivity].
Qed.

Lemma text_2020_column_aborts_binning_witness :
  visualizations default_config table_text_2020 []
  = ([] ++ [WarnNotNumeric "2020"], Raise TypeError).
Proof.
  apply (text_2020_column_aborts_binning table_text_2020
           [Some ".."; Some "6000000"] []).
  - reflexivity.
  - discriminate.
Defined.

(** ** The bar chart of the binning path *)

Lemma label_of_covered (v : Q) :
  0 <= v -> exists l, label_of v = Some l /\ In l labels.
Proof.
  intros H. destruct (bucket_exists v H) as [i Hi].
  rewrite (label_of_bucket i v Hi).
  destruct (nth_error labels i) as [l |] eqn:El.
  - exists l. split; [reflexivity | exact (nth_error_In _ _ El)].
  - apply nth_error_None in El. pose proof (in_bucket_bound i v Hi).
    simpl in El. lia.
Qed.

Lemma label_of_in_labels (v : Q) (l : string) :
  label_of v = Some l -> In l labels.
Proof.
  unfold label_of, cut_one. destruct (_ || _); [discriminate |].
  apply nth_error_In.
Qed.

Lemma dropna_cut_length (ys : list Q) :
  List.length (dropna (map (option_map VStr) (cut ys bins labels true)))
  = List.length (filter (Qle_bool 0) ys).
Proof.
  unfold cut. induction ys as [| y ys IH]; [reflexivity |].
  cbn [map filter]. fold (label_of y).
  destruct (Qle_bool 0 y) eqn:E.
  - apply Qle_bool_iff in E. destruct (label_of_covered y E) as [l [-> _]].
    cbn [option_map dropna List.length]. now rewrite IH.
  - apply not_true_iff_false in E. rewrite Qle_bool_iff in E.
    apply Qnot_le_lt in E. rewrite (label_of_negative y E).
    cbn [option_map dropna]. exact IH.
Qed.

Lemma dropna_cut_in_labels (ys : list Q) :
  exists ls,
    dropna (map (option_map VStr) (cut ys bins labels true)) = map VStr ls /\
    forall l, In l ls -> In l labels.
Proof.
  unfold cut. induction ys as [| y ys [ls [IH Hls]]].
  - exists []. split; [reflexivity | intros l []].
  - cbn [map]. fold (label_of y). destruct (label_of y) as [l |] eqn:El.
    + exists (l :: ls). cbn [option_map dropna map]. rewrite IH.
      split; [reflexivity |].
      intros l' [<- | H]; [exact (label_of_in_labels y l El) | now apply Hls].
    + exists ls. cbn [option_map dropna]. now split.
Qed.

(** X12. Values below zero lie outside every range: [pd.cut] leaves them
    without a category and the bar chart's cleaning step drops them, so
    the categorical series that is charted has one entry for each value
    of the column that is neither missing nor negative. *)
Theorem binning_drops_negative_values (xs : list (option Q)) :
  (forall v, v < 0 -> label_of v = None) /\
  exists cs,
    categorical_series (NumSeries xs) = Ok cs /\
    List.length cs = List.length (dropna xs) /\
    List.length (dropna cs) = List.length (covered_values xs).
Proof.
  split; [exact label_of_negative |].
  exists (cut (dropna xs) bins labels true). split; [reflexivity |]. split.
  - unfold cut. apply length_map.
  - unfold covered_values. rewrite <- dropna_cut_length.
    generalize (cut (dropna xs) bins labels true). intros l.
    induction l as [| [a |] l IH]; simpl; [reflexivity | now rewrite IH | exact IH].
Qed.

Lemma insert_desc_total (p : value * nat) (l : list (value * nat)) :
  total_of (insert_desc p l) = (snd p + total_of l)%nat.
Proof.
  unfold total_of, list_sum. induction l as [| q l IH]; [reflexivity |].
  simpl. destruct (snd q <=? snd p)%nat; simpl; [reflexivity |].
  rewrite IH. lia.
Qed.

Lemma sort_desc_total (l : list (value * nat)) :
  total_of (sort_desc l) = total_of l.
Proof.
  induction l as [| p l IH]; [reflexivity |].
  cbn [sort_desc fold_right]. fold (sort_desc l).
  rewrite insert_desc_total, IH. reflexivity.
Qed.

Lemma list_sum_cons (a : nat) (l : list nat) :
  list_sum (a :: l) = (a + list_sum l)%nat.
Proof. reflexivity. Qed.

Lemma indicator_sum_absent (ks : list string) (x : string) :
  ~ In x ks ->
  list_sum (map (fun k => if String.eqb k x then 1 else 0)%nat ks) = 0%nat.
Proof.
  induction ks as [| k ks IH]; intros Hnin; [reflexivity |].
  cbn [map]. rewrite list_sum_cons, IH by (intros H; apply Hnin; now right).
  destruct (String.eqb k x) eqn:E; [| reflexivity].
  apply String.eqb_eq in E. subst k. exfalso. apply Hnin. now left.
Qed.

Lemma indicator_sum (ks : list string) (x : string) :
  NoDup ks -> In x ks ->
  list_sum (map (fun k => if String.eqb k x then 1 else 0)%nat ks) = 1%nat.
Proof.
  induction 1 as [| k ks Hnin Hnd IH]; intros Hin; [destruct Hin |].
  cbn [map]. rewrite list_sum_cons. destruct (String.eqb k x) eqn:E.
  - apply String.eqb_eq in E. subst k.
    now rewrite (indicator_sum_absent ks x Hnin).
  - destruct Hin as [-> | Hin]; [rewrite String.eqb_refl in E; discriminate |].
    now rewrite IH.
Qed.

Lemma occurrences_cons (k x : string) (xs : list string) :
  occurrences (VStr k) (map VStr (x :: xs))
  = ((if String.eqb k x then 1 else 0)
     + occurrences (VStr k) (map VStr xs))%nat.
Proof.
  unfold occurrences. cbn [map filter value_eqb].
  destruct (String.eqb k x); reflexivity.
Qed.

Lemma list_sum_map_plus {A} (f g : A -> nat) (l : list A) :
  list_sum (map (fun k => f k + g k)%nat l)
  = (list_sum (map f l) + list_sum (map g l))%nat.
Proof.
  induction l as [| k l IH]; [reflexivity |].
  cbn [map]. rewrite !list_sum_cons, IH. lia.
Qed.

Lemma list_sum_map_zero {A} (l : list A) :
  list_sum (map (fun _ => 0%nat) l) = 0%nat.
Proof. induction l as [| k l IH]; [reflexivity | exact IH]. Qed.

(** Counting each category of a duplicate-free list accounts for every
    observation that belongs to one of them exactly once. *)
Lemma occurrences_total (ks xs : list string) :
  NoDup ks -> (forall x, In x xs -> In x ks) ->
  list_sum (map (fun k => occurrences (VStr k) (map VStr xs)) ks)
  = List.length xs.
Proof.
  intros Hnd. induction xs as [| x xs IH]; intros Hin.
  - rewrite (map_ext _ (fun _ => 0%nat)) by reflexivity.
    apply list_sum_map_zero.
  - rewrite (map_ext _ _ (fun k => occurrences_cons k x xs)).
    rewrite (list_sum_map_plus
               (fun k => if String.eqb k x then 1%nat else 0%nat)
               (fun k => occurrences (VStr k) (map VStr xs))).
    rewrite IH, (indicator_sum ks x Hnd).
    + reflexivity.
    + apply Hin. now left.
    + intros y Hy. apply Hin. now right.
Qed.

Lemma binning_chart_totals (cfg : config) (df : DataFrame)
    (xs : list (option Q)) (tr : list event) :
  CREATE_CATEGORICAL_FROM_CONTINUOUS cfg = true ->
  column (CONTINUOUS_COLUMN_FOR_BINNING cfg) df = Some (NumSeries xs) ->
  exists bars unique,
    binning_stage cfg df tr
    = (tr ++ [VisualizingCategorical
                (categorical_column_name (CONTINUOUS_COLUMN_FOR_BINNING cfg));
              BarChart
                (categorical_column_name (CONTINUOUS_COLUMN_FOR_BINNING cfg))
                bars;
              CategoricalSummary
                (categorical_column_name (CONTINUOUS_COLUMN_FOR_BINNING cfg))
                unique (List.length (covered_values xs)) bars],
       Ok tt) /\
    List.length bars = 7%nat /\
    (forall l, In l labels -> In (VStr l) (map fst bars)) /\
    total_of bars = List.length (covered_values xs).
Proof.
  intros Hcreate Hcolumn.
  pose proof (binning_stage_numeric cfg df xs tr Hcreate Hcolumn) as Hstage.
  cbv zeta in Hstage.
  set (cs := dropna (map (option_map VStr) (cut (dropna xs) bins labels true)))
    in *.
  assert (Hlen : List.length cs = List.length (covered_values xs))
    by apply dropna_cut_length.
  rewrite Hlen in Hstage.
  exists (value_counts (Some (map VStr labels)) cs), (nunique cs).
  split; [exact Hstage |]. split.
  { now rewrite value_counts_categories_length. }
  split.
  - intros l Hl. unfold value_counts.
    assert (Hperm : forall p (lst : list (value * nat)),
               In p lst -> In p (sort_desc lst)).
    { intros p lst. induction lst as [| q lst IHl]; [intros [] |].
      cbn [sort_desc fold_right]. fold (sort_desc lst).
      assert (Hins : forall a b (m : list (value * nat)),
                 a = b \/ In a m -> In a (insert_desc b m)).
      { intros a b m. induction m as [| c m IHm]; cbn [insert_desc].
        - intros [-> | []]. now left.
        - destruct (snd c <=? snd b)%nat.
          + intros [-> | H]; [now left | now right].
          + intros [-> | [-> | H]]; [right; apply IHm; now left | now left |].
            right. apply IHm. now right. }
      intros [<- | H]; apply Hins; [now left | right; now apply IHl]. }
    apply in_map_iff. exists (VStr l, occurrences (VStr l) cs).
    split; [reflexivity |]. apply Hperm.
    apply in_map_iff. exists (VStr l). split; [reflexivity |].
    now apply in_map.
  - rewrite <- Hlen. unfold value_counts. rewrite sort_desc_total.
    unfold total_of. rewrite !map_map. cbn [snd].
    destruct (dropna_cut_in_labels (dropna xs)) as [ls [Hcs Hls]].
    fold cs in Hcs. rewrite Hcs, length_map.
    apply occurrences_total; [| exact Hls].
    unfold labels.
    repeat (constructor; [cbn; intuition discriminate |]). constructor.
Qed.

(** X13. The bar chart of the binning path always has seven bars, one
    for each label and also for labels no value falls under, and their
    counts add up to the total the summary prints: the cap of ten loses
    no category. *)
Theorem binning_chart_accounts_for_every_value (cfg : config) (df : DataFrame)
    (xs : list (option Q)) (tr : list event) :
  CREATE_CATEGORICAL_FROM_CONTINUOUS cfg = true ->
  column (CONTINUOUS_COLUMN_FOR_BINNING cfg) df = Some (NumSeries xs) ->
  exists bars unique,
    binning_stage cfg df tr
    = (tr ++ [VisualizingCategorical
                (categorical_column_name (CONTINUOUS_COLUMN_FOR_BINNING cfg));
              BarChart
                (categorical_column_name (CONTINUOUS_COLUMN_FOR_BINNING cfg))
                bars;
              CategoricalSummary
                (categorical_column_name (CONTINUOUS_COLUMN_FOR_BINNING cfg))
                unique (List.length (covered_values xs)) bars],
       Ok tt) /\
    List.length bars = 7%nat /\
    (forall l, In l labels -> In (VStr l) (map fst bars)) /\
    total_of bars = List.length (covered_values xs).
Proof. exact (binning_chart_totals cfg df xs tr). Qed.

Lemma binning_chart_accounts_for_every_value_witness :
  exists bars unique,
    binning_stage default_config mixed_table []
    = ([] ++ [VisualizingCategorical "2020 (Population Size Categories)";
              BarChart "2020 (Population Size Categories)" bars;
              CategoricalSummary "2020 (Population Size Categories)"
                unique 4 bars],
       Ok tt) /\
    List.length bars = 7%nat /\
    (forall l, In l labels -> In (VStr l) (map fst bars)) /\
    total_of bars = 4%nat.
Proof.
  exact (binning_chart_accounts_for_every_value default_config mixed_table
           mixed_column [] eq_refl eq_refl).
Defined.

(** ** Descending bars and the two caps *)

Lemma insert_desc_in (a b : value * nat) (m : list (value * nat)) :
  In a (insert_desc b m) -> a = b \/ In a m.
Proof.
  induction m as [| c m IH]; cbn [insert_desc].
  - intros [<- | []]. now left.
  - destruct (snd c <=? snd b)%nat.
    + intros [<- | H]; [now left | now right].
    + intros [<- | H]; [right; now left |].
      destruct (IH H) as [-> | H']; [now left | right; now right].
Qed.

Lemma insert_desc_sorted (p : value * nat) (l : list (value * nat)) :
  StronglySorted not_less_frequent l ->
  StronglySorted not_less_frequent (insert_desc p l).
Proof.
  induction 1 as [| q l Hl IH Hq]; cbn [insert_desc].
  - repeat constructor.
  - destruct (snd q <=? snd p)%nat eqn:E.
    + apply Nat.leb_le in E. constructor; [now constructor |].
      constructor; [exact E |].
      rewrite Forall_forall in *. intros r Hr.
      unfold not_less_frequent in *. specialize (Hq r Hr). lia.
    + apply Nat.leb_gt in E. constructor; [exact IH |].
      rewrite Forall_forall in *. intros r Hr.
      destruct (insert_desc_in r p l Hr) as [-> | Hr'];
        [unfold not_less_frequent; lia | now apply Hq].
Qed.

Lemma sort_desc_sorted (l : list (value * nat)) :
  StronglySorted not_less_frequent (sort_desc l).
Proof.
  induction l as [| p l IH]; [constructor |].
  cbn [sort_desc fold_right]. now apply insert_desc_sorted.
Qed.

Lemma in_firstn {A} (x : A) (n : nat) (l : list A) :
  In x (firstn n l) -> In x l.
Proof.
  revert n. induction l as [| a l IH]; intros [| n]; cbn [firstn];
    try (intros []; fail).
  intros [<- | H]; [now left | right; exact (IH n H)].
Qed.

Lemma firstn_sorted {A} (R : A -> A -> Prop) (n : nat) (l : list A) :
  StronglySorted R l -> StronglySorted R (firstn n l).
Proof.
  intros H. revert n. induction H as [| a l Hl IH Ha]; intros [| n];
    cbn [firstn]; try constructor.
  - apply IH.
  - rewrite Forall_forall in *. intros x Hx. apply Ha.
    exact (in_firstn _ _ _ Hx).
Qed.

(** X14. Whenever [visualize_categorical] returns, it has rendered one
    chart whose bars are in descending order of frequency and no more
    than [top_n] in number, and printed a summary whose list of top values
    is the first ten bars at most. *)
Theorem categorical_chart_is_descending_and_capped
    (categories : option (list value)) (series : list (option value))
    (name : string) (top_n : nat) (tr tr' : list event) :
  visualize_categorical categories series name top_n tr = (tr', Ok tt) ->
  exists bars top,
    tr' = tr ++ [BarChart name bars;
                 CategoricalSummary name (nunique (dropna series))
                   (List.length (dropna series)) top] /\
    bars <> [] /\
    StronglySorted not_less_frequent bars /\
    (List.length bars <= top_n)%nat /\
    top = firstn 10 bars /\
    (List.length top <= 10)%nat.
Proof.
  unfold visualize_categorical.
  set (bars := firstn top_n (value_counts categories (dropna series))).
  assert (Hsorted : StronglySorted not_less_frequent bars).
  { apply firstn_sorted. unfold value_counts. apply sort_desc_sorted. }
  assert (Hlen : (List.length bars <= top_n)%nat) by apply firstn_le_length.
  destruct bars as [| b bars'] eqn:E; [discriminate |].
  unfold bind, emit. intros H. injection H as <-.
  exists (b :: bars'), (firstn 10 (b :: bars')).
  repeat split; try assumption.
  - now rewrite <- app_assoc.
  - discriminate.
  - apply firstn_le_length.
Qed.

Lemma categorical_chart_is_descending_and_capped_witness :
  exists bars top,
    bars <> [] /\
    StronglySorted not_less_frequent bars /\
    (List.length bars <= 30)%nat /\
    top = firstn 10 bars /\
    (List.length top <= 10)%nat.
Proof.
  destruct (categorical_chart_is_descending_and_capped None
              (values_of (ObjSeries [Some "A"; Some "B"; Some "A"]))
              "Country Name" 30 [] _ eq_refl) as [bars [top [_ H]]].
  exists bars, top. exact H.
Defined.

(** ** The order of the labels *)

(** X15. The scheme is monotone: of two values the scheme covers, the
    larger never falls in an earlier range, so the order of the labels is
    the order of the values. *)
Theorem bucket_index_is_monotone (v w : Q) (i j : nat) :
  in_bucket i v -> in_bucket j w -> v <= w ->
  (i <= j)%nat /\
  label_of v = nth_error labels i /\ label_of w = nth_error labels j.
Proof.
  intros Hi Hj Hvw.
  split; [| split; now apply label_of_bucket].
  pose proof (in_bucket_bound i v Hi) as Bi.
  pose proof (in_bucket_bound j w Hj) as Bj.
  unfold in_bucket, bins in Hi, Hj.
  do 7 (destruct i as [| i];
        [ do 7 (destruct j as [| j];
                [ try lia; exfalso;
                  cbn [nth_error above within at_edge] in Hi, Hj;
                  destruct Hi as [[Hi | [Hi0 Hi]] Hi'];
                  destruct Hj as [[Hj | [Hj0 Hj]] Hj'];
                  try discriminate; try lra
                | ]); lia
        | ]).
  lia.
Qed.

Lemma bucket_index_is_monotone_witness :
  (1 <= 2)%nat /\
  label_of 2000000 = nth_error labels 1 /\
  label_of 6000000 = nth_error labels 2.
Proof.
  apply (bucket_index_is_monotone 2000000 6000000 1 2).
  - unfold in_bucket, bins. cbn [nth_error above within at_edge].
    split; [left |]; unfold Qlt, Qle; simpl; lia.
  - unfold in_bucket, bins. cbn [nth_error above within at_edge].
    split; [left |]; unfold Qlt, Qle; simpl; lia.
  - unfold Qle; simpl; lia.
Defined.

(** ** The script's configuration on a numeric column *)

Lemma covered_values_length (xs : list (option Q)) :
  (List.length (covered_values xs) <= List.length (dropna xs))%nat.
Proof. unfold covered_values. apply filter_length_le. Qed.

(** X16. With the script's own configuration and a numeric column
    "2020", a run of the two visualizations that returns has printed and
    plotted, in this order: the banner, the histogram and the summary of
    the column without its missing values, then the banner, the seven-bar
    chart and its summary.  The chart's total is the number of values
    that are neither missing nor negative, so it never exceeds the count
    of the first summary. *)
Theorem default_run_on_numeric_column (df : DataFrame) (xs : list (option Q))
    (tr tr' : list event) :
  column "2020" df = Some (NumSeries xs) ->
  visualizations default_config df tr = (tr', Ok tt) ->
  exists bars unique,
    tr' = tr ++ [VisualizingContinuous "2020";
                 Histogram "2020" (dropna xs);
                 ContinuousSummary "2020" (describe (dropna xs));
                 VisualizingCategorical "2020 (Population Size Categories)";
                 BarChart "2020 (Population Size Categories)" bars;
                 CategoricalSummary "2020 (Population Size Categories)"
                   unique (List.length (covered_values xs)) bars] /\
    s_count (describe (dropna xs)) = List.length (dropna xs) /\
    (List.length (covered_values xs) <= s_count (describe (dropna xs)))%nat /\
    total_of bars = List.length (covered_values xs).
Proof.
  intros Hcol Hrun.
  destruct (binning_chart_totals default_config df xs
              (tr ++ [VisualizingContinuous "2020";
                      Histogram "2020" (dropna xs);
                      ContinuousSummary "2020" (describe (dropna xs))])
              eq_refl Hcol) as [bars [unique [Hbin [_ [_ Htotal]]]]].
  exists bars, unique. repeat split; try assumption.
  - unfold visualizations, bind, continuous_stage in Hrun.
    cbn [default_config continuous_column Str.truthy] in Hrun.
    rewrite (column_has_column _ _ _ Hcol), Hcol in Hrun. cbn [negb] in Hrun.
    unfold visualize_continuous, bind, emit in Hrun.
    rewrite <- !app_assoc in *. cbn [app] in *.
    rewrite Hbin in Hrun. now injection Hrun as <-.
  - apply covered_values_length.
Qed.

Lemma default_run_on_numeric_column_witness :
  exists bars unique,
    fst (visualizations default_config mixed_table [])
    = [] ++ [VisualizingContinuous "2020";
             Histogram "2020" [2000000; -5; 0; 700000000; 6000000];
             ContinuousSummary "2020"
               (describe [2000000; -5; 0; 700000000; 6000000]);
             VisualizingCategorical "2020 (Population Size Categories)";
             BarChart "2020 (Population Size Categories)" bars;
             CategoricalSummary "2020 (Population Size Categories)"
               unique 4 bars] /\
    s_count (describe [2000000; -5; 0; 700000000; 6000000]) = 5%nat /\
    (4 <= 5)%nat /\
    total_of bars = 4%nat.
Proof.
  exact (default_run_on_numeric_column mixed_table mixed_column []
           (fst (visualizations default_config mixed_table []))
           eq_refl eq_refl).
Defined.

(** ** Which entries are CSV files *)

(** X17. An entry is taken for a CSV file exactly when its name is some
    stem followed by ".csv" in any mix of upper and lower case. *)
Theorem is_csv_iff_extension_in_any_case (file : string) :
  is_csv file = true <->
  exists stem ext, file = (stem ++ ext)%string /\ Str.lower ext = ".csv".
Proof.
  unfold is_csv. split.
  - induction file as [| c s IH]; [discriminate |].
    change (Str.lower (String c s)) with (String (Str.lower_char c) (Str.lower s)).
    cbn [Str.endswith]. intros H. apply orb_true_iff in H as [H | H].
    + apply String.eqb_eq in H. exists EmptyString, (String c s). now split.
    + destruct (IH H) as [stem [ext [-> Hext]]].
      exists (String c stem), ext. now split.
  - intros [stem [ext [-> Hext]]]. rewrite lower_append, Hext.
    now apply endswith_append.
Qed.

Lemma is_csv_iff_extension_in_any_case_witness :
  is_csv "data/Population.CsV" = true.
Proof.
  apply (proj2 (is_csv_iff_extension_in_any_case "data/Population.CsV")).
  exists "data/Population", ".CsV". split; reflexivity.
Defined.

(** ** An entry under a directory named after metadata *)

Lemma basename_join (dir base : string) :
  no_slash base = true ->
  Str.basename (dir ++ "/" ++ base) = base.
Proof.
  intros Hbase. unfold Str.basename.
  generalize (dir ++ "/" ++ base)%string at 1.
  induction dir as [| c d IH]; intros cur.
  - cbn [String.append Str.basename_from].
    change (Ascii.eqb "/" "/") with true. cbn iota.
    now apply basename_from_keep.
  - change (String c d ++ "/" ++ base)%string
      with (String c (d ++ "/" ++ base)%string).
    cbn [Str.basename_from]. destruct (Ascii.eqb c "/"%char); apply IH.
Qed.

Lemma startswith_append (sub s t : string) :
  Str.startswith sub s = true -> Str.startswith sub (s ++ t) = true.
Proof.
  revert s. induction sub as [| a sub IH]; intros [| b s] H;
    try reflexivity; try discriminate.
  cbn [Str.startswith String.append] in *.
  apply andb_true_iff in H as [-> H]. now rewrite (IH s H).
Qed.

Lemma contains_append (sub s t : string) :
  Str.contains sub s = true -> Str.contains sub (s ++ t) = true.
Proof.
  induction s as [| c s IH]; cbn [Str.contains]; intros H.
  - rewrite orb_false_r in H. destruct sub; [| discriminate].
    destruct t; reflexivity.
  - apply orb_true_iff in H as [H | H].
    + change (String c s ++ t)%string with (String c (s ++ t)%string).
      cbn [Str.contains].
      change (String c (s ++ t)%string) with (String c s ++ t)%string at 1.
      now rewrite (startswith_append sub _ t H).
    + change (String c s ++ t)%string with (String c (s ++ t)%string).
      cbn [Str.contains]. rewrite (IH H). apply orb_true_r.
Qed.

(** X18. The two tests on "Metadata" look at different names: the
    parsing rule at the member's full name, the selector at the base name
    it is stored under.  An entry whose directory, but not its file name,
    contains "Metadata" is therefore read without skipping any row and,
    once read, chosen as the main dataset. *)
Theorem metadata_directory_is_read_unskipped_yet_selected
    (dir base bytes : string) (tr : list event) :
  Str.contains "Metadata" dir = true ->
  Str.contains "Metadata" base = false ->
  no_slash base = true ->
  is_csv base = true ->
  load_all_csv_from_zip [((dir ++ "/" ++ base)%string, bytes)]
  = rbind (read_csv 0 bytes) (fun df => Ok [(base, df)]) /\
  forall df,
    read_csv 0 bytes = Ok df ->
    select_dataset [(base, df)] tr = (tr ++ [UsingDataset base], Ok df).
Proof.
  intros Hdir Hbase Hns Hcsv. split.
  - unfold load_all_csv_from_zip, namelist. cbn [map fst load_loop].
    assert (Hfile : is_csv (dir ++ "/" ++ base) = true).
    { unfold is_csv in *. rewrite lower_append.
      apply endswith_append. rewrite lower_append. now apply endswith_append. }
    rewrite Hfile. unfold z_open. cbn [fold_left fst snd].
    rewrite String.eqb_refl. cbn [rbind]. unfold parse_entry.
    rewrite (contains_append "Metadata" dir _ Hdir), (basename_join dir base Hns).
    destruct (read_csv 0 bytes); reflexivity.
  - intros df _.
    apply (select_first_non_metadata [] [] base df tr);
      [intros e [] | exact Hbase |].
    rewrite <- (basename_join EmptyString base Hns).
    apply is_csv_basename_truthy.
    unfold is_csv in *. rewrite lower_append. now apply endswith_append.
Qed.

Lemma metadata_directory_is_read_unskipped_yet_selected_witness :
  load_all_csv_from_zip [("Metadata/population.csv", sample_data)]
  = Raise ParserError /\
  load_all_csv_from_zip [("Metadata/population.csv", sample_metadata)]
  = rbind (read_csv 0 sample_metadata)
      (fun df => Ok [("population.csv", df)]).
Proof.
  split.
  - exact (proj1 (metadata_directory_is_read_unskipped_yet_selected
                    "Metadata" "population.csv" sample_data []
                    eq_refl eq_refl eq_refl eq_refl)).
  - exact (proj1 (metadata_directory_is_read_unskipped_yet_selected
                    "Metadata" "population.csv" sample_metadata []
                    eq_refl eq_refl eq_refl eq_refl)).
Defined.
